(** * Audio intelligence engine: spectral extractor, tempo estimator, sequencer

    A shallow embedding of [src/hooks/useAudioAnalyzer.ts] and
    [src/utils/audioSynth.ts].

    Numbers.  A JavaScript [number] is modelled as an exact rational, with one
    extra value [NaN] for the result of reading a typed array out of range
    and doing arithmetic on it.  Rounding of IEEE doubles is not modelled:
    [0.995] is the rational 199/200.  The one place where the rounding
    changes a result that is a whole number, the last statements of
    [detectBpm], is also evaluated in binary64, in [Double].  On the states
    the code can reach,
    every division has a divisor that is a positive constant, a guarded
    positive counter or a value bounded away from zero, so no infinity is
    needed. *)

From Stdlib Require Import Strings.String Strings.Byte.
From Stdlib Require Import QArith Qround Qminmax Lqa ZArith List Bool Lia.
From Stdlib Require PrimFloat FloatOps Uint63.
Import ListNotations.

Open Scope Q_scope.

(* ------------------------------------------------------------------ *)
(** ** JavaScript numbers *)

Module Js.

Inductive num : Type :=
| NaN
| Num (q : Q).

Definition Qltb (x y : Q) : bool := negb (Qle_bool y x).

Definition lift2 (f : Q -> Q -> Q) (a b : num) : num :=
  match a, b with
  | Num x, Num y => Num (f x y)
  | _, _ => NaN
  end.

Definition add : num -> num -> num := lift2 Qplus.
Definition sub : num -> num -> num := lift2 Qminus.
Definition mul : num -> num -> num := lift2 Qmult.

(** [a / k] for a divisor [k] that is an ordinary non-zero number. *)
Definition divq (a : num) (k : Q) : num :=
  match a with
  | Num x => Num (x / k)
  | NaN => NaN
  end.

(** [Math.max] and [Math.min]: [NaN] if either argument is [NaN]. *)
Definition max : num -> num -> num := lift2 Qmax.
Definition min : num -> num -> num := lift2 Qmin.

(** [a > b] and [a < b]: false as soon as one side is [NaN]. *)
Definition gtb (a b : num) : bool :=
  match a, b with
  | Num x, Num y => Qltb y x
  | _, _ => false
  end.

Definition ltb (a b : num) : bool := gtb b a.

(** [Math.round] on a finite number: the nearest integer, ties upwards. *)
Definition round (x : Q) : Z := Qfloor (x + 0.5).

Definition is_number (a : num) : Prop :=
  match a with
  | Num _ => True
  | NaN => False
  end.

(** The closed interval [lo, hi]; [NaN] lies in no interval. *)
Definition within (lo hi : Q) (a : num) : Prop :=
  match a with
  | Num x => lo <= x /\ x <= hi
  | NaN => False
  end.

End Js.

Import Js.

(* ------------------------------------------------------------------ *)
(** ** Spectral frames *)

(** A [Uint8Array]: one magnitude per frequency bin. *)
Definition frame : Type := list byte.

Definition byteQ (b : byte) : Q := inject_Z (Z.of_N (Byte.to_N b)).

(** [data[i]] used as a number: an index past the end reads [undefined],
    which [+=] turns into [NaN]. *)
Definition data_at (data : frame) (i : nat) : num :=
  match nth_error data i with
  | Some b => Num (byteQ b)
  | None => NaN
  end.

(** [for (let i = lo; i < hi; i++) acc = body i acc]. *)
Definition for_range {A : Type} (lo hi : nat) (body : nat -> A -> A) (acc : A) : A :=
  fold_left (fun a i => body i a) (seq lo (hi - lo)) acc.

(** [analyserRef.current]: absent, or an analyser whose
    [getByteFrequencyData] currently yields the given bins. *)
Definition analyser : Type := option frame.

(** The analyser is configured with [fftSize = 512]. *)
Definition fftSize : nat := 512.
Definition frequencyBinCount : nat := fftSize / 2.

Definition getFrequencyData (an : analyser) : frame :=
  match an with
  | None => []
  | Some bins => bins
  end.

(* ------------------------------------------------------------------ *)
(** ** Spectral feature extractor *)

Record History : Type := mkHistory {
  bass : num;
  high : num;
  mid : num
}.

(** The refs of the hook that the extractors read and write. *)
Record Refs : Type := mkRefs {
  maxVolumeRef : Q;
  gainRef : Q;
  historyRef : History
}.

Definition initial_refs : Refs :=
  {| maxVolumeRef := 100;
     gainRef := 1.0;
     historyRef := {| bass := Num 0; high := Num 0; mid := Num 0 |} |}.

Definition set_bass (v : num) (h : History) : History :=
  {| bass := v; high := high h; mid := mid h |}.
Definition set_high (v : num) (h : History) : History :=
  {| bass := bass h; high := v; mid := mid h |}.
Definition set_mid (v : num) (h : History) : History :=
  {| bass := bass h; high := high h; mid := v |}.

Definition set_history (h : History) (r : Refs) : Refs :=
  {| maxVolumeRef := maxVolumeRef r; gainRef := gainRef r; historyRef := h |}.

(** The scan of the full spectrum in [updateAutoGain]; every index read is
    in range. *)
Definition frameMax (data : frame) : Q :=
  fold_left (fun m b => if Qltb m (byteQ b) then byteQ b else m) data 0.

Definition safeMax (maxVolume : Q) : Q := Qmax maxVolume 50.0.

Definition updateAutoGain (data : frame) (r : Refs) : Refs :=
  let fm := frameMax data in
  let maxVolume :=
    if Qltb (maxVolumeRef r) fm then fm else maxVolumeRef r * 0.995 in
  let targetGain := 255.0 / safeMax maxVolume in
  {| maxVolumeRef := maxVolume;
     gainRef := gainRef r + (targetGain - gainRef r) * 0.1;
     historyRef := historyRef r |}.

Definition bassBins : nat := 4.

Definition getBassEnergy (an : analyser) (r : Refs) : Refs * num :=
  match an with
  | None => (r, Num 0)
  | Some _ =>
    let data := getFrequencyData an in
    let r := updateAutoGain data r in
    let sum := for_range 0 bassBins (fun i s => add s (data_at data i)) (Num 0) in
    let currentAvg := mul (divq sum (inject_Z (Z.of_nat bassBins))) (Num (gainRef r)) in
    let prevBass := bass (historyRef r) in
    let kickTransient := max (Num 0) (sub currentAvg prevBass) in
    let kickTransient := min (mul kickTransient (Num 2.5)) (Num 255) in
    let r := set_history (set_bass currentAvg (historyRef r)) r in
    (r, add (mul kickTransient (Num 0.8)) (mul currentAvg (Num 0.2)))
  end.

Definition getMidEnergy (an : analyser) (r : Refs) : Refs * num :=
  match an with
  | None => (r, Num 0)
  | Some _ =>
    let data := getFrequencyData an in
    let '(sum, count) :=
      for_range 5 30
        (fun i '(s, c) => (add s (data_at data i), S c)) (Num 0, O) in
    let currentAvg :=
      if (0 <? count)%nat
      then mul (divq sum (inject_Z (Z.of_nat count))) (Num (gainRef r))
      else Num 0 in
    let m := add (mul (mid (historyRef r)) (Num 0.8)) (mul currentAvg (Num 0.2)) in
    let r := set_history (set_mid m (historyRef r)) r in
    (r, min (mid (historyRef r)) (Num 255))
  end.

Definition getHighEnergy (an : analyser) (r : Refs) : Refs * num :=
  match an with
  | None => (r, Num 0)
  | Some _ =>
    let data := getFrequencyData an in
    let '(sum, count) :=
      for_range 50 (Nat.min (length data) 150)
        (fun i '(s, c) => (add s (data_at data i), S c)) (Num 0, O) in
    let currentAvg :=
      if (0 <? count)%nat
      then mul (mul (divq sum (inject_Z (Z.of_nat count))) (Num (gainRef r))) (Num 1.8)
      else Num 0 in
    let prevHigh := high (historyRef r) in
    let highTransient := max (Num 0) (sub currentAvg prevHigh) in
    let r := set_history (set_high currentAvg (historyRef r)) r in
    (r, min (mul highTransient (Num 4.0)) (Num 255))
  end.

(** One call of an extractor, as the animation loop makes them. *)
Inductive band : Type := Bass | Mid | High.

Definition poll : Type := (band * analyser)%type.

Definition extract (p : poll) (r : Refs) : Refs * num :=
  match fst p with
  | Bass => getBassEnergy (snd p) r
  | Mid => getMidEnergy (snd p) r
  | High => getHighEnergy (snd p) r
  end.

(** The refs after a sequence of polls, oldest first. *)
Definition run_polls (ps : list poll) (r : Refs) : Refs :=
  fold_left (fun r p => fst (extract p r)) ps r.

Definition silent : frame := repeat x00 frequencyBinCount.
Definition loud : frame := repeat xff frequencyBinCount.

(* ------------------------------------------------------------------ *)
(** ** Tempo estimator *)

Record BeatState : Type := mkBeat {
  lastBeatTime : Q;
  intervals : list Q;
  threshold : num;
  minThreshold : Q
}.

Definition initial_beat : BeatState :=
  {| lastBeatTime := 0; intervals := []; threshold := Num 0; minThreshold := 80 |}.

Definition set_threshold (t : num) (s : BeatState) : BeatState :=
  {| lastBeatTime := lastBeatTime s; intervals := intervals s;
     threshold := t; minThreshold := minThreshold s |}.
Definition set_lastBeatTime (t : Q) (s : BeatState) : BeatState :=
  {| lastBeatTime := t; intervals := intervals s;
     threshold := threshold s; minThreshold := minThreshold s |}.
Definition set_intervals (l : list Q) (s : BeatState) : BeatState :=
  {| lastBeatTime := lastBeatTime s; intervals := l;
     threshold := threshold s; minThreshold := minThreshold s |}.

(** The first two statements of [detectBpm]: decay, then floor. *)
Definition decay_threshold (state : BeatState) : BeatState :=
  let state := set_threshold (mul (threshold state) (Num 0.95)) state in
  if ltb (threshold state) (Num (minThreshold state))
  then set_threshold (Num (minThreshold state)) state
  else state.

(** [bassEnergy > state.threshold && bassEnergy > state.minThreshold],
    evaluated after the decay. *)
Definition crossing (bassEnergy : num) (state : BeatState) : bool :=
  gtb bassEnergy (threshold state) && gtb bassEnergy (Num (minThreshold state)).

(** [now - state.lastBeatTime > 250]. *)
Definition debounced (now : Q) (state : BeatState) : bool :=
  Qltb 250 (now - lastBeatTime state).

(** [intervals.reduce((a,b)=>a+b,0) / intervals.length]. *)
Definition average (l : list Q) : Q :=
  fold_left Qplus l 0 / inject_Z (Z.of_nat (length l)).

(** [detectBpm(bassEnergy)], with the reading of [performance.now()] as the
    argument [now]. *)
Definition detectBpm (bassEnergy : num) (now : Q) (state : BeatState)
  : BeatState * option Z :=
  let state := decay_threshold state in
  let state :=
    if crossing bassEnergy state then
      let state :=
        if debounced now state then
          let interval := now - lastBeatTime state in
          let state := set_lastBeatTime now state in
          if Qltb 300 interval && Qltb interval 1000 then
            let state := set_intervals (intervals state ++ [interval]) state in
            if (8 <? length (intervals state))%nat
            then set_intervals (tl (intervals state)) state
            else state
          else state
        else state in
      set_threshold (mul bassEnergy (Num 1.1)) state
    else state in
  (state,
   if (4 <=? length (intervals state))%nat
   then Some (round (60000 / average (intervals state)))
   else None).

(** The estimator after a sequence of calls [(bassEnergy, now)]. *)
Definition run_beats (calls : list (num * Q)) (state : BeatState) : BeatState :=
  fold_left (fun s c => fst (detectBpm (fst c) (snd c) s)) calls state.

(* ------------------------------------------------------------------ *)
(** ** The estimate in binary64 *)

Module Double.

Import PrimFloat FloatOps SpecFloat.

(** [intervals.reduce((a,b)=>a+b,0)]: the sum from the left, each addition
    rounded to binary64. *)
Definition sum (l : list float) : float := fold_left PrimFloat.add l 0%float.

(** [intervals.length], as a number. *)
Definition count (l : list float) : float :=
  of_uint63 (Uint63.of_Z (Z.of_nat (length l))).

Definition average (l : list float) : float := PrimFloat.div (sum l) (count l).

(** The rational that a finite double stands for. *)
Definition exact (x : float) : option Q :=
  match Prim2SF x with
  | S754_zero _ => Some 0
  | S754_finite s m e =>
    let v := if (0 <=? e)%Z
             then inject_Z (Z.pos m * 2 ^ e)
             else Z.pos m # Pos.pow 2 (Z.to_pos (- e)) in
    Some (if s then - v else v)
  | S754_infinity _ | S754_nan => None
  end.

(** [Math.round] takes a finite double to the nearest integer, ties
    upwards, without rounding error; an infinity or [NaN] is returned as it
    is. *)
Inductive rounded : Type :=
| Int (z : Z)
| NotFinite.

Definition round (x : float) : rounded :=
  match exact x with
  | Some q => Int (Js.round q)
  | None => NotFinite
  end.





End Double.

(* ------------------------------------------------------------------ *)
(** ** Procedural sequencer *)

Module Synth.

(** A synthesised voice, scheduled at an audio-clock time. *)
Inductive Voice : Type :=
| Kick (time : Q)
| RumbleKick (time : Q)
| HiHat (time : Q) (open : bool) (volume : Q) (cutoff : Q)
| BassNote (time : Q) (freq : num) (hard : bool)
| Click (time : Q)
| IndustrialPerc (time : Q).

(** What the synth acts on besides its own fields: the outcomes of
    [Math.random()] (an arbitrary sequence, read at a cursor), the voices
    handed to the audio graph so far (newest first), the pending timeouts of
    [window], and the audio context. *)
Record Env : Type := mkEnv {
  draws : N -> Q;
  cursor : N;
  fired : list Voice;
  pending : list nat;
  nextTimer : nat;
  sampleRate : Q;
  suspended : bool
}.

Definition random (e : Env) : Q * Env :=
  (draws e (cursor e),
   {| draws := draws e; cursor := N.succ (cursor e); fired := fired e;
      pending := pending e; nextTimer := nextTimer e;
      sampleRate := sampleRate e; suspended := suspended e |}).

(** A noise buffer filled by [for (i = 0; i < bufferSize; i++) Math.random()]. *)
Definition fill_noise (bufferSize : Q) (e : Env) : Env :=
  {| draws := draws e; cursor := (cursor e + Z.to_N (Qceiling bufferSize))%N;
     fired := fired e; pending := pending e; nextTimer := nextTimer e;
     sampleRate := sampleRate e; suspended := suspended e |}.

Definition emit (v : Voice) (e : Env) : Env :=
  {| draws := draws e; cursor := cursor e; fired := v :: fired e;
     pending := pending e; nextTimer := nextTimer e;
     sampleRate := sampleRate e; suspended := suspended e |}.

Definition setTimeout (e : Env) : nat * Env :=
  (nextTimer e,
   {| draws := draws e; cursor := cursor e; fired := fired e;
      pending := nextTimer e :: pending e; nextTimer := S (nextTimer e);
      sampleRate := sampleRate e; suspended := suspended e |}).

Definition clearTimeout (id : nat) (e : Env) : Env :=
  {| draws := draws e; cursor := cursor e; fired := fired e;
     pending := remove Nat.eq_dec id (pending e); nextTimer := nextTimer e;
     sampleRate := sampleRate e; suspended := suspended e |}.

Definition resume (e : Env) : Env :=
  {| draws := draws e; cursor := cursor e; fired := fired e;
     pending := pending e; nextTimer := nextTimer e;
     sampleRate := sampleRate e; suspended := false |}.

Record TechnoSynth : Type := mkSynth {
  isPlaying : bool;
  tempo : Z;
  style : string;
  scheduleAheadTime : Q;
  nextNoteTime : Q;
  current16thNote : nat;
  timerID : option nat;
  lookahead : Q;
  bassPattern : list num;
  delayGain : Q;
  delayTime : Q
}.

Definition hard : string := "hard".
Definition minimal : string := "minimal".

Definition is_hard (s : TechnoSynth) : bool := String.eqb (style s) hard.

(** *** Pattern generation *)

(** [Array(64).fill(0).map((_, i) => f i)], threading the random draws. *)
Definition map_steps (f : nat -> Env -> num * Env) (e : Env) : list num * Env :=
  fold_left
    (fun '(acc, e) i => let '(x, e) := f i e in (acc ++ [x], e))
    (seq 0 64) ([], e).

Definition pick (l : list Q) (i : Z) : num :=
  if (i <? 0)%Z then NaN
  else match nth_error l (Z.to_nat i) with
       | Some x => Num x
       | None => NaN
       end.

Definition minimal_step (i : nat) (e : Env) : num * Env :=
  let baseFreq := 55 in
  let intervals := [1; 1.5] in
  let stepInBar := (i mod 16)%nat in
  let probability := if (stepInBar mod 4 =? 2)%nat then 0.6 else 0.2 in
  let '(x, e) := random e in
  if Qltb x probability then
    let '(y, e) := random e in
    (mul (Num baseFreq)
         (pick intervals (Qfloor (y * inject_Z (Z.of_nat (length intervals))))), e)
  else (Num 0, e).

Definition hard_step (i : nat) (e : Env) : num * Env :=
  let root := 45 in
  let stepInBar := (i mod 16)%nat in
  let '(rolled, e) :=
    if negb (stepInBar mod 4 =? 0)%nat then
      let '(x, e) := random e in (Qltb x 0.8, e)
    else (false, e) in
  if rolled then (Num root, e)
  else if (12 <? stepInBar)%nat then
    let '(y, e) := random e in
    if Qltb y 0.3 then (Num (root * 2), e) else (Num 0, e)
  else (Num 0, e).

Definition generateMinimalPattern : Env -> list num * Env := map_steps minimal_step.
Definition generateHardPattern : Env -> list num * Env := map_steps hard_step.

Definition with_style (st : string) (s : TechnoSynth) : TechnoSynth :=
  {| isPlaying := isPlaying s; tempo := tempo s; style := st;
     scheduleAheadTime := scheduleAheadTime s; nextNoteTime := nextNoteTime s;
     current16thNote := current16thNote s; timerID := timerID s;
     lookahead := lookahead s; bassPattern := bassPattern s;
     delayGain := delayGain s; delayTime := delayTime s |}.

Definition with_preset (t : Z) (dg dt : Q) (pat : list num) (s : TechnoSynth)
  : TechnoSynth :=
  {| isPlaying := isPlaying s; tempo := t; style := style s;
     scheduleAheadTime := scheduleAheadTime s; nextNoteTime := nextNoteTime s;
     current16thNote := current16thNote s; timerID := timerID s;
     lookahead := lookahead s; bassPattern := pat;
     delayGain := dg; delayTime := dt |}.

(** [if (style)]: [undefined] and the empty string are falsy. *)
Definition truthy (style : option string) : option string :=
  match style with
  | Some EmptyString => None
  | other => other
  end.

Definition regenerate (style_arg : option string) (s : TechnoSynth) (e : Env)
  : TechnoSynth * Env :=
  let s := match truthy style_arg with
           | Some st => with_style st s
           | None => s
           end in
  if is_hard s then
    let '(x, e) := random e in
    let t := (140 + Qfloor (x * 5))%Z in
    let '(pat, e) := generateHardPattern e in
    (with_preset t 0.4 ((60 / inject_Z t) * 0.75) pat s, e)
  else
    let '(x, e) := random e in
    let t := (126 + Qfloor (x * 4))%Z in
    let '(pat, e) := generateMinimalPattern e in
    (with_preset t 0.1 ((60 / inject_Z t) * 0.5) pat s, e).

(** The fields as the class declares them, before the constructor runs
    [regenerate]. *)
Definition declared (st : string) : TechnoSynth :=
  {| isPlaying := false; tempo := 130; style := st;
     scheduleAheadTime := 0.1; nextNoteTime := 0; current16thNote := 0;
     timerID := None; lookahead := 25.0; bassPattern := [];
     delayGain := 0.0; delayTime := 0.375 |}.

Definition constructor (st : string) (e : Env) : TechnoSynth * Env :=
  regenerate (Some st) (declared st) e.

(** *** Instruments

    Each instrument hands one enveloped voice to the audio graph; the two
    noise-based ones first fill a buffer from [Math.random()]. *)

Definition playKick (time : Q) (e : Env) : Env := emit (Kick time) e.

Definition playRumbleKick (time : Q) (e : Env) : Env :=
  emit (RumbleKick time) (fill_noise (sampleRate e * 0.5) e).

Definition playHiHat (s : TechnoSynth) (time : Q) (open : bool) (vol : Q) (e : Env)
  : Env :=
  let e := fill_noise (sampleRate e * (if open then 0.1 else 0.05)) e in
  let cutoff := if is_hard s then 8000 else 7000 in
  let volume := if Qltb 0 vol then vol else if open then 0.3 else 0.1 in
  emit (HiHat time open volume cutoff) e.

Definition playBass (s : TechnoSynth) (time : Q) (freq : num) (e : Env) : Env :=
  emit (BassNote time freq (is_hard s)) e.

Definition playClick (time : Q) (e : Env) : Env := emit (Click time) e.

Definition playIndustrialPerc (time : Q) (e : Env) : Env :=
  emit (IndustrialPerc time) e.

(** *** Scheduling *)

Definition nextNote (s : TechnoSynth) : TechnoSynth :=
  let secondsPerBeat := 60.0 / inject_Z (tempo s) in
  let n := S (current16thNote s) in
  {| isPlaying := isPlaying s; tempo := tempo s; style := style s;
     scheduleAheadTime := scheduleAheadTime s;
     nextNoteTime := nextNoteTime s + 0.25 * secondsPerBeat;
     current16thNote := if (n =? 64)%nat then 0%nat else n;
     timerID := timerID s; lookahead := lookahead s;
     bassPattern := bassPattern s;
     delayGain := delayGain s; delayTime := delayTime s |}.

(** [this.bassPattern[stepIndex]]; a missing entry compares false with 0. *)
Definition pattern_at (s : TechnoSynth) (stepIndex : nat) : num :=
  match nth_error (bassPattern s) stepIndex with
  | Some f => f
  | None => NaN
  end.

(** The four numbered sections of [scheduleNote]. *)
Definition schedule_kick (s : TechnoSynth) (stepInBar : nat) (time : Q) (e : Env)
  : Env :=
  if (stepInBar mod 4 =? 0)%nat then
    if is_hard s then playRumbleKick time e else playKick time e
  else e.

Definition schedule_hats (s : TechnoSynth) (stepInBar : nat) (time : Q) (e : Env)
  : Env :=
  if is_hard s then
    let e := if (stepInBar mod 4 =? 2)%nat then playHiHat s time true 0 e else e in
    let e := if negb (stepInBar mod 2 =? 0)%nat then playHiHat s time false 0 e else e in
    if (stepInBar mod 4 =? 0)%nat then
      let '(x, e) := random e in
      if Qltb 0.5 x then playHiHat s time true 0.1 e else e
    else e
  else
    if (stepInBar mod 4 =? 2)%nat then playHiHat s time true 0 e
    else
      let '(x, e) := random e in
      if Qltb 0.7 x then playHiHat s time false 0 e else e.

Definition schedule_bass (s : TechnoSynth) (stepIndex : nat) (time : Q) (e : Env)
  : Env :=
  let bassFreq := pattern_at s stepIndex in
  if gtb bassFreq (Num 0) then playBass s time bassFreq e else e.

Definition schedule_perc (s : TechnoSynth) (time : Q) (e : Env) : Env :=
  let '(x, e) := random e in
  if is_hard s then
    if Qltb 0.97 x then playIndustrialPerc time e else e
  else
    if Qltb 0.95 x then playClick time e else e.

Definition scheduleNote (s : TechnoSynth) (stepIndex : nat) (time : Q) (e : Env)
  : Env :=
  let stepInBar := (stepIndex mod 16)%nat in
  let e := schedule_kick s stepInBar time e in
  let e := schedule_hats s stepInBar time e in
  let e := schedule_bass s stepIndex time e in
  schedule_perc s time e.

(** One iteration of the body of the look-ahead loop. *)
Definition step (w : TechnoSynth * Env) : TechnoSynth * Env :=
  let '(s, e) := w in
  (nextNote s, scheduleNote s (current16thNote s) (nextNoteTime s) e).

(** [while (nextNoteTime < currentTime + scheduleAheadTime) step], unrolled
    at most [fuel] times. *)
Fixpoint look_ahead (fuel : nat) (currentTime : Q) (w : TechnoSynth * Env)
  : TechnoSynth * Env :=
  match fuel with
  | O => w
  | S fuel =>
    if Qltb (nextNoteTime (fst w)) (currentTime + scheduleAheadTime (fst w))
    then look_ahead fuel currentTime (step w)
    else w
  end.

(** A number of iterations after which the loop condition is false when the
    tempo is positive: every iteration moves [nextNoteTime] on by a
    sixteenth note. *)
Definition iterations (currentTime : Q) (s : TechnoSynth) : nat :=
  let horizon := currentTime + scheduleAheadTime s in
  let sixteenth := 0.25 * (60.0 / inject_Z (tempo s)) in
  S (Z.to_nat (Qceiling ((horizon - nextNoteTime s) / sixteenth))).

Definition with_timer (id : nat) (s : TechnoSynth) : TechnoSynth :=
  {| isPlaying := isPlaying s; tempo := tempo s; style := style s;
     scheduleAheadTime := scheduleAheadTime s; nextNoteTime := nextNoteTime s;
     current16thNote := current16thNote s; timerID := Some id;
     lookahead := lookahead s; bassPattern := bassPattern s;
     delayGain := delayGain s; delayTime := delayTime s |}.

Definition scheduler (currentTime : Q) (w : TechnoSynth * Env) : TechnoSynth * Env :=
  let '(s, e) := look_ahead (iterations currentTime (fst w)) currentTime w in
  if isPlaying s then
    let '(id, e) := setTimeout e in (with_timer id s, e)
  else (s, e).

(** The state [play] puts the synth in before it runs the scheduler. *)
Definition restarted (currentTime : Q) (s : TechnoSynth) : TechnoSynth :=
  {| isPlaying := true; tempo := tempo s; style := style s;
     scheduleAheadTime := scheduleAheadTime s;
     nextNoteTime := currentTime + 0.05;
     current16thNote := 0;
     timerID := timerID s; lookahead := lookahead s;
     bassPattern := bassPattern s;
     delayGain := delayGain s; delayTime := delayTime s |}.

Definition play (currentTime : Q) (w : TechnoSynth * Env) : TechnoSynth * Env :=
  let '(s, e) := w in
  if isPlaying s then w
  else
    let e := if suspended e then resume e else e in
    scheduler currentTime (restarted currentTime s, e).

Definition stop (w : TechnoSynth * Env) : TechnoSynth * Env :=
  let '(s, e) := w in
  let s :=
    {| isPlaying := false; tempo := tempo s; style := style s;
       scheduleAheadTime := scheduleAheadTime s; nextNoteTime := nextNoteTime s;
       current16thNote := current16thNote s; timerID := timerID s;
       lookahead := lookahead s; bassPattern := bassPattern s;
       delayGain := delayGain s; delayTime := delayTime s |} in
  match timerID s with
  | Some (S id) => (s, clearTimeout (S id) e)
  | _ => (s, e)
  end.

Definition is_kick (v : Voice) : bool :=
  match v with
  | Kick _ | RumbleKick _ => true
  | _ => false
  end.

Definition kicks (l : list Voice) : nat := length (filter is_kick l).

(** An environment with a fixed sequence of draws, for examples. *)
Definition env0 (d : N -> Q) : Env :=
  {| draws := d; cursor := 0; fired := []; pending := []; nextTimer := 1;
     sampleRate := 44100; suspended := true |}.

End Synth.

Import Synth.

(* ------------------------------------------------------------------ *)
(** ** Vocabulary of the properties *)

(** What every sequence of gain updates preserves: the envelope and the gain
    stay positive, and the gain never exceeds 255/50. *)
Definition gain_ok (r : Refs) : Prop :=
  0 < maxVolumeRef r /\ 0 < gainRef r /\ gainRef r <= 5.1.

(** The refs after a sequence of gain updates, oldest frame first. *)
Definition run_gain (frames : list frame) (r : Refs) : Refs :=
  fold_left (fun r f => updateAutoGain f r) frames r.

(** The envelope under silence: one decay per call. *)
Definition decayed (n : nat) (m : Q) : Q := Nat.iter n (fun m => m * 0.995) m.

(** A number that is not negative; [NaN] is not. *)
Definition nonneg (a : num) : Prop :=
  match a with
  | Num q => 0 <= q
  | NaN => False
  end.

(** The invariant of the refs under polls of frames that hold every bin the
    extractors read. *)
Definition refs_ok (r : Refs) : Prop :=
  gain_ok r /\
  nonneg (bass (historyRef r)) /\
  nonneg (high (historyRef r)) /\
  nonneg (mid (historyRef r)).

(** The upper bound of the bass output: the clamped transient at 80 %, plus
    20 % of a raw average that the gain can lift to 255 * 5.1. *)
Definition bass_ceiling : Q := 255 * 0.8 + 255 * 5.1 * 0.2.

(** A poll is wide when its frame holds every bin the mid band reads
    (the analyser's own frames hold [frequencyBinCount] = 256). *)
Definition wide (p : poll) : Prop :=
  match snd p with
  | Some data => (30 <= length data)%nat
  | None => True
  end.

(** The upper bound proved for each band's output. *)
Definition ceiling (b : band) : Q :=
  match b with
  | Bass => bass_ceiling
  | Mid | High => 255
  end.


(** The part of the refs that [updateAutoGain] writes. *)
Definition gain_state (r : Refs) : Q * Q := (maxVolumeRef r, gainRef r).

(** The estimator after one accepted beat at 1000 ms. *)
Definition after_first_beat : BeatState := fst (detectBpm (Num 100) 1000 initial_beat).

(** [intervals.push(interval); if (intervals.length > 8) intervals.shift()]. *)
Definition pushed (l : list Q) (x : Q) : list Q :=
  if (8 <? length (l ++ [x]))%nat then tl (l ++ [x]) else l ++ [x].

(** [interval > 300 && interval < 1000]. *)
Definition plausible (x : Q) : Prop := 300 < x /\ x < 1000.

(** What every call preserves: at most 8 intervals, each between 300 and
    1000 ms. *)
Definition beat_ok (s : BeatState) : Prop :=
  Forall plausible (intervals s) /\ (length (intervals s) <= 8)%nat.



(** A bass spike every 500 ms, with two quiet frames after each for the
    threshold to decay below the next spike. *)
Definition steady_calls : list (num * Q) :=
  [(Num 200, 500); (Num 0, 600); (Num 0, 700);
   (Num 200, 1000); (Num 0, 1100); (Num 0, 1200);
   (Num 200, 1500); (Num 0, 1600); (Num 0, 1700)].

(** A style that is neither of the two presets. *)
Definition acid : string := "acid".

(** Steps 0, 4, 8 and 12 of a bar. *)
Definition quarter (stepIndex : nat) : bool :=
  existsb (Nat.eqb (stepIndex mod 16)) [0; 4; 8; 12]%nat.

(** The kicks among the voices fired so far. *)
Definition kick_voices (e : Env) : list Voice := filter is_kick (fired e).

(** The quarters among [n] consecutive steps from [start]. *)
Definition quarters_from (start n : nat) : nat :=
  length (filter quarter (map (fun k => ((start + k) mod 64)%nat) (seq 0 n))).

(** A hard-style synth as its constructor leaves it. *)
Definition hard_synth : TechnoSynth * Env := constructor hard (env0 (fun _ => 0.5)).

(** The sixteenth-note increment of [nextNote]. *)
Definition sixteenth (s : TechnoSynth) : Q := 0.25 * (60.0 / inject_Z (tempo s)).

(** The hard-style synth, playing since audio time 10. *)
Definition playing_synth : TechnoSynth * Env := play 10 hard_synth.

(** *** Vocabulary for the sequencer beyond the kick *)

(** Every outcome of [Math.random()] lies in [0, 1). *)
Definition unit_draws (e : Env) : Prop :=
  forall n, 0 <= draws e n /\ draws e n < 1.

(** The audio-clock time a voice is scheduled at. *)
Definition voice_time (v : Voice) : Q :=
  match v with
  | Kick t | RumbleKick t | Click t | IndustrialPerc t => t
  | HiHat t _ _ _ => t
  | BassNote t _ _ => t
  end.

Definition is_hat (v : Voice) : bool :=
  match v with
  | HiHat _ _ _ _ => true
  | _ => false
  end.

Definition is_bass_note (v : Voice) : bool :=
  match v with
  | BassNote _ _ _ => true
  | _ => false
  end.

(** What the hard pattern may hold at step [i]. *)
Definition hard_entry (i : nat) (x : num) : Prop :=
  (x = Num 0 \/ x = Num 45 \/ x = Num 90) /\
  (((i mod 16) mod 4 = 0)%nat -> x = Num 0) /\
  (x = Num 90 -> (12 < i mod 16)%nat).

(** What the minimal pattern may hold. *)
Definition minimal_entry (x : num) : Prop :=
  x = Num 0 \/ x = Num 55 \/ x = Num 82.5.

(** The hats of one step, read off section 2 of [scheduleNote]: [x] is the
    draw the section makes, if it makes one. *)
Definition hats_due (hard_style : bool) (stepInBar : nat) (time x : Q) : list Voice :=
  if hard_style then
    if (stepInBar mod 4 =? 2)%nat then [HiHat time true 0.3 8000]
    else if negb (stepInBar mod 2 =? 0)%nat then [HiHat time false 0.1 8000]
    else if Qltb 0.5 x then [HiHat time true 0.1 8000] else []
  else
    if (stepInBar mod 4 =? 2)%nat then [HiHat time true 0.3 7000]
    else if Qltb 0.7 x then [HiHat time false 0.1 7000] else [].

(** The bass note of one step, read off section 3 of [scheduleNote]. *)
Definition bass_due (s : TechnoSynth) (stepIndex : nat) (time : Q) : list Voice :=
  if gtb (pattern_at s stepIndex) (Num 0)
  then [BassNote time (pattern_at s stepIndex) (is_hard s)]
  else [].

(* ------------------------------------------------------------------ *)
(** ** The animation loop of the application

    The body of [loop] in [src/App.tsx], one call per animation frame.  The
    two readings of [performance.now()] it causes (inside [detectBpm], then
    for the BPM display) are the arguments [now1] and [now2].  The
    interpolation [THREE.MathUtils.lerp] belongs to a library and is a
    parameter. *)

Record Energy : Type := mkEnergy {
  energy_bass : num;
  energy_mid : num;
  energy_high : num;
  energy_total : num
}.

Record Features : Type := mkFeatures {
  feature_bass : bool;
  feature_high : bool
}.

Inductive Mode : Type := FileMode | SynthMode | SystemMode.

Record App : Type := mkApp {
  energyState : Energy;
  bpm : Z;
  lastBpmUpdate : Q;
  dropImpulse : Q;
  analyzer_refs : Refs;
  analyzer_beat : BeatState
}.

(** What one frame finds: the React state in force, the analyser, the
    clock. *)
Record Frame : Type := mkFrame {
  isPlaying_now : bool;
  isReady_now : bool;
  features_now : Features;
  mode_now : Mode;
  analyser_now : analyser;
  now1 : Q;
  now2 : Q
}.

Definition is_synth_mode (m : Mode) : bool :=
  match m with
  | SynthMode => true
  | _ => false
  end.

(** [if (detectedBpm && ...)]: [null] and 0 are falsy. *)
Definition detected_bpm (d : option Z) : option Z :=
  match d with
  | Some 0%Z => None
  | other => other
  end.

(** The gate in front of the displayed BPM:
    [setBpm(prev => Math.abs(prev - detected) > 5 ? detected : prev)] when an
    estimate arrives more than a second after the last gate passage. *)
Definition gate_bpm (d : option Z) (now : Q) (display : Z) (last : Q) : Z * Q :=
  match detected_bpm d with
  | Some detected =>
    if Qltb 1000 (now - last)
    then ((if (5 <? Z.abs (display - detected))%Z then detected else display), now)
    else (display, last)
  | None => (display, last)
  end.

(** [if (dropImpulse > 0) { dropImpulse -= 0.02; if (dropImpulse < 0) dropImpulse = 0 }]. *)
Definition decay_drop (d : Q) : Q :=
  if Qltb 0 d then
    let d := d - 0.02 in
    if Qltb d 0 then 0 else d
  else d.

Section AnimationLoop.

Variable lerp : num -> num -> num -> num.

Definition loop (f : Frame) (a : App) : App :=
  let a :=
    if isPlaying_now f && isReady_now f then
      let '(r, bass) :=
        if feature_bass (features_now f)
        then getBassEnergy (analyser_now f) (analyzer_refs a)
        else (analyzer_refs a, Num 0) in
      let '(r, high) :=
        if feature_high (features_now f)
        then getHighEnergy (analyser_now f) r
        else (r, Num 0) in
      let '(r, mid) := getMidEnergy (analyser_now f) r in
      let energy :=
        {| energy_bass := bass; energy_mid := mid; energy_high := high;
           energy_total := add (add (mul bass (Num 0.5)) (mul mid (Num 0.3)))
                               (mul high (Num 0.2)) |} in
      if negb (is_synth_mode (mode_now f)) then
        let '(beat, detectedBpm) := detectBpm bass (now1 f) (analyzer_beat a) in
        let '(display, last) := gate_bpm detectedBpm (now2 f) (bpm a) (lastBpmUpdate a) in
        {| energyState := energy; bpm := display; lastBpmUpdate := last;
           dropImpulse := dropImpulse a; analyzer_refs := r; analyzer_beat := beat |}
      else
        {| energyState := energy; bpm := bpm a; lastBpmUpdate := lastBpmUpdate a;
           dropImpulse := dropImpulse a; analyzer_refs := r;
           analyzer_beat := analyzer_beat a |}
    else
      let en := energyState a in
      {| energyState :=
           {| energy_bass := lerp (energy_bass en) (Num 0) (Num 0.1);
              energy_mid := lerp (energy_mid en) (Num 0) (Num 0.1);
              energy_high := lerp (energy_high en) (Num 0) (Num 0.1);
              energy_total := lerp (energy_total en) (Num 0) (Num 0.1) |};
         bpm := bpm a; lastBpmUpdate := lastBpmUpdate a;
         dropImpulse := dropImpulse a; analyzer_refs := analyzer_refs a;
         analyzer_beat := analyzer_beat a |} in
  {| energyState := energyState a; bpm := bpm a; lastBpmUpdate := lastBpmUpdate a;
     dropImpulse := decay_drop (dropImpulse a);
     analyzer_refs := analyzer_refs a; analyzer_beat := analyzer_beat a |}.

(** [triggerDrop], as far as the loop's state goes. *)
Definition triggerDrop (a : App) : App :=
  {| energyState := energyState a; bpm := bpm a; lastBpmUpdate := lastBpmUpdate a;
     dropImpulse := 1.0;
     analyzer_refs := analyzer_refs a; analyzer_beat := analyzer_beat a |}.

(** What happens to the loop's state: a frame is drawn, or the user triggers
    a drop. *)
Inductive AppEvent : Type :=
| Draw (f : Frame)
| Drop.

Definition app_event (ev : AppEvent) (a : App) : App :=
  match ev with
  | Draw f => loop f a
  | Drop => triggerDrop a
  end.

Definition run_app (evs : list AppEvent) (a : App) : App :=
  fold_left (fun a ev => app_event ev a) evs a.

End AnimationLoop.

(** The state of [App] when it mounts. *)
Definition initial_app : App :=
  {| energyState := {| energy_bass := Num 0; energy_mid := Num 0;
                       energy_high := Num 0; energy_total := Num 0 |};
     bpm := 120; lastBpmUpdate := 0; dropImpulse := 0;
     analyzer_refs := initial_refs; analyzer_beat := initial_beat |}.

(** The frames among the events of the loop. *)
Definition frames_of (evs : list AppEvent) : list Frame :=
  flat_map (fun ev => match ev with Draw f => [f] | Drop => [] end) evs.

(** A frame in which the loop polls the analyser. *)
Definition analysing (f : Frame) : bool := isPlaying_now f && isReady_now f.

(** The interpolation formula of [THREE.MathUtils.lerp], to instantiate the
    loop's parameter in examples. *)
Definition linear (x y t : num) : num := add (mul (sub (Num 1) t) x) (mul t y).

(** A frame of the running application in file mode. *)
Definition file_frame (features : Features) : Frame :=
  {| isPlaying_now := true; isReady_now := true; features_now := features;
     mode_now := FileMode; analyser_now := Some loud; now1 := 0; now2 := 0 |}.

(* ------------------------------------------------------------------ *)
(** ** The audio graph of the analyser hook

    [initAudio], [disconnectCurrentSource], [connectSource],
    [connectAudioNode], [connectMicrophone] and [connectSystemAudio] of
    [src/hooks/useAudioAnalyzer.ts].  Of the Web Audio graph the model keeps
    what these functions act on: which nodes are connected to the analyser,
    the gain of the output node, and the calls of
    [createMediaElementSource].  The two capture functions are asynchronous:
    each is split at its [await] into the part that runs at the call and the
    part that runs when the browser answers. *)

Module Wiring.

(** Nodes that can feed the analyser: the source made for a media element,
    the source made for a captured stream, or a node the caller passes in. *)
Inductive Node : Type :=
| ElementSource (element : nat)
| StreamSource (stream : nat)
| External (id : nat).

Definition node_eqb (a b : Node) : bool :=
  match a, b with
  | ElementSource x, ElementSource y => Nat.eqb x y
  | StreamSource x, StreamSource y => Nat.eqb x y
  | External x, External y => Nat.eqb x y
  | _, _ => false
  end.

Record Hook : Type := mkHook {
  audioContext : bool;          (* [audioContextRef.current] and [analyserRef.current] are set *)
  outputGain : option Q;        (* the gain of [outputGainRef.current], once created *)
  sourceRef : option Node;
  sourceCache : list (nat * Node);
  links : list Node;            (* the nodes connected to the analyser *)
  created : list nat;           (* elements passed to [createMediaElementSource], newest first *)
  isReady : bool;
  awaiting : nat                (* capture requests the browser has not answered yet *)
}.

Definition unmounted : Hook :=
  {| audioContext := false; outputGain := None; sourceRef := None;
     sourceCache := []; links := []; created := []; isReady := false; awaiting := 0 |}.

(** [node.connect(analyser)]: connecting twice makes one connection. *)
Definition connect (n : Node) (l : list Node) : list Node :=
  if existsb (node_eqb n) l then l else n :: l.

(** [node.disconnect()]. *)
Definition disconnect (n : Node) (l : list Node) : list Node :=
  filter (fun m => negb (node_eqb n m)) l.

Definition cache_get (element : nat) (c : list (nat * Node)) : option Node :=
  match find (fun kv => Nat.eqb element (fst kv)) c with
  | Some kv => Some (snd kv)
  | None => None
  end.

Definition initAudio (h : Hook) : Hook :=
  if audioContext h then h
  else
    {| audioContext := true; outputGain := Some 1; sourceRef := sourceRef h;
       sourceCache := sourceCache h; links := links h; created := created h;
       isReady := true; awaiting := awaiting h |}.

Definition disconnectCurrentSource (h : Hook) : Hook :=
  match sourceRef h with
  | Some n =>
    {| audioContext := audioContext h; outputGain := outputGain h; sourceRef := None;
       sourceCache := sourceCache h; links := disconnect n (links h);
       created := created h; isReady := isReady h; awaiting := awaiting h |}
  | None => h
  end.

(** [source.connect(analyser); sourceRef.current = source;
    if (outputGainRef.current) outputGainRef.current.gain.value = g]. *)
Definition attach (n : Node) (g : Q) (h : Hook) : Hook :=
  {| audioContext := audioContext h;
     outputGain := match outputGain h with Some _ => Some g | None => None end;
     sourceRef := Some n;
     sourceCache := sourceCache h; links := connect n (links h);
     created := created h; isReady := isReady h; awaiting := awaiting h |}.

Definition connectSource (element : nat) (h : Hook) : Hook :=
  if negb (audioContext h) then h
  else
    let h := disconnectCurrentSource h in
    match cache_get element (sourceCache h) with
    | Some source => attach source 1.0 h
    | None =>
      let source := ElementSource element in
      let h :=
        {| audioContext := audioContext h; outputGain := outputGain h;
           sourceRef := sourceRef h;
           sourceCache := (element, source) :: sourceCache h; links := links h;
           created := element :: created h; isReady := isReady h;
           awaiting := awaiting h |} in
      attach source 1.0 h
    end.

Definition connectAudioNode (node : nat) (h : Hook) : Hook :=
  if negb (audioContext h) then h
  else attach (External node) 1.0 (disconnectCurrentSource h).

(** The part of [connectMicrophone] and of [connectSystemAudio] before the
    [await]. *)
Definition request_capture (h : Hook) : Hook :=
  if negb (audioContext h) then h
  else
    let h := disconnectCurrentSource h in
    {| audioContext := audioContext h; outputGain := outputGain h;
       sourceRef := sourceRef h; sourceCache := sourceCache h; links := links h;
       created := created h; isReady := isReady h; awaiting := S (awaiting h) |}.

(** What the browser answers: a stream (for the screen share, with or
    without an audio track), or a refusal. *)
Inductive Answer : Type :=
| Granted (stream : nat) (has_audio : bool)
| Refused.

(** The part after the [await]; the result is what the function returns. *)
Definition capture_answered (system : bool) (ans : Answer) (h : Hook) : Hook * bool :=
  match awaiting h with
  | O => (h, false)
  | S k =>
    let h :=
      {| audioContext := audioContext h; outputGain := outputGain h;
         sourceRef := sourceRef h; sourceCache := sourceCache h; links := links h;
         created := created h; isReady := isReady h; awaiting := k |} in
    match ans with
    | Granted stream has_audio =>
      if system && negb has_audio then (h, false)
      else (attach (StreamSource stream) 0.0 h, true)
    | Refused => (h, false)
    end
  end.

(** Everything that can happen to the hook. *)
Inductive Event : Type :=
| InitAudio
| ConnectSource (element : nat)
| ConnectAudioNode (node : nat)
| RequestCapture
| CaptureAnswered (system : bool) (ans : Answer)
| TrackEnded.

Definition handle (ev : Event) (h : Hook) : Hook :=
  match ev with
  | InitAudio => initAudio h
  | ConnectSource element => connectSource element h
  | ConnectAudioNode node => connectAudioNode node h
  | RequestCapture => request_capture h
  | CaptureAnswered system ans => fst (capture_answered system ans h)
  | TrackEnded => disconnectCurrentSource h
  end.

Definition run (evs : list Event) (h : Hook) : Hook :=
  fold_left (fun h ev => handle ev h) evs h.

(** Events that involve no capture: switching between files and the synth. *)
Definition synchronous (ev : Event) : bool :=
  match ev with
  | InitAudio | ConnectSource _ | ConnectAudioNode _ => true
  | _ => false
  end.

Definition is_stream (n : Node) : bool :=
  match n with
  | StreamSource _ => true
  | _ => false
  end.

End Wiring.

Import Wiring.

(** What every event of the hook preserves. *)
Definition wired (h : Hook) : Prop :=
  ((0 < awaiting h)%nat -> audioContext h = true) /\
  (audioContext h = true -> exists g, outputGain h = Some g) /\
  (audioContext h = false -> sourceRef h = None /\ links h = [] /\ awaiting h = O) /\
  created h = map fst (sourceCache h) /\
  NoDup (created h) /\
  (forall kv, In kv (sourceCache h) -> snd kv = ElementSource (fst kv)) /\
  (forall n, sourceRef h = Some n -> In n (links h)) /\
  (forall n, sourceRef h = Some n -> is_stream n = true -> outputGain h = Some 0.0).

(** The analyser is fed by the current source and by nothing else. *)
Definition single_source (h : Hook) : Prop :=
  links h = match sourceRef h with
            | Some n => [n]
            | None => []
            end.

(** No capture is requested while the answer to an earlier request is
    outstanding. *)
Fixpoint one_at_a_time (evs : list Event) (h : Hook) : bool :=
  match evs with
  | [] => true
  | ev :: evs =>
    match ev with
    | RequestCapture => Nat.eqb (awaiting h) 0
    | _ => true
    end && one_at_a_time evs (handle ev h)
  end.

(** What the events preserve when captures are requested one at a time: a
    captured stream that feeds the analyser is the current source, and none
    feeds it while an answer is outstanding. *)
Definition streams_current (h : Hook) : Prop :=
  (awaiting h <= 1)%nat /\
  (forall n, In n (links h) -> is_stream n = true -> sourceRef h = Some n) /\
  (awaiting h = 1%nat -> forall n, In n (links h) -> is_stream n = false).

(* ------------------------------------------------------------------ *)
(** * Properties *)

(** ** Comparisons and bytes *)

Lemma Qltb_lt (x y : Q) : Qltb x y = true <-> x < y.
Proof.
  unfold Qltb. rewrite negb_true_iff, <- not_true_iff_false, Qle_bool_iff.
  split; [apply Qnot_le_lt | apply Qlt_not_le].
Qed.

Lemma Qltb_ge (x y : Q) : Qltb x y = false <-> y <= x.
Proof.
  unfold Qltb. rewrite negb_false_iff. apply Qle_bool_iff.
Qed.

Ltac qcases :=
  repeat match goal with
  | |- context [Qltb ?a ?b] =>
    let E := fresh "E" in
    destruct (Qltb a b) eqn:E;
    [apply Qltb_lt in E | apply Qltb_ge in E]
  end.

Lemma byteQ_range (b : byte) : 0 <= byteQ b /\ byteQ b <= 255.
Proof.
  unfold byteQ. pose proof (Byte.to_N_bounded b) as Hb.
  split.
  - change 0 with (inject_Z 0). rewrite <- Zle_Qle. lia.
  - change 255 with (inject_Z 255). rewrite <- Zle_Qle. lia.
Qed.

Lemma Qmax_cases (x y : Q) : (Qmax x y = x /\ y <= x) \/ (Qmax x y = y /\ x < y).
Proof.
  unfold Qmax, GenericMinMax.gmax.
  destruct (x ?= y) eqn:C.
  - left. apply Qeq_alt in C. split; [reflexivity | lra].
  - right. apply Qlt_alt in C. split; [reflexivity | lra].
  - left. apply Qgt_alt in C. split; [reflexivity | lra].
Qed.

Lemma Qmin_cases (x y : Q) : (Qmin x y = x /\ x <= y) \/ (Qmin x y = y /\ y < x).
Proof.
  unfold Qmin, GenericMinMax.gmin.
  destruct (x ?= y) eqn:C.
  - left. apply Qeq_alt in C. split; [reflexivity | lra].
  - left. apply Qlt_alt in C. split; [reflexivity | lra].
  - right. apply Qgt_alt in C. split; [reflexivity | lra].
Qed.

(** ** Adaptive gain *)

Lemma safeMax_floor (m : Q) : 50 <= safeMax m.
Proof.
  unfold safeMax. destruct (Qmax_cases m 50.0) as [[-> H] | [-> H]]; lra.
Qed.

Lemma targetGain_range (m : Q) : 0 < 255.0 / safeMax m /\ 255.0 / safeMax m <= 5.1.
Proof.
  pose proof (safeMax_floor m) as H.
  split.
  - apply Qlt_shift_div_l; lra.
  - apply Qle_shift_div_r; lra.
Qed.

Lemma updateAutoGain_ok (data : frame) (r : Refs) :
  gain_ok r -> gain_ok (updateAutoGain data r).
Proof.
  intros (Hm & Hg & Hg').
  unfold gain_ok, updateAutoGain; simpl.
  set (mv := if Qltb (maxVolumeRef r) (frameMax data) then frameMax data
             else maxVolumeRef r * 0.995).
  pose proof (targetGain_range mv) as [Ht Ht'].
  repeat split; try lra.
  subst mv. qcases; lra.
Qed.

Lemma run_gain_ok (frames : list frame) (r : Refs) :
  gain_ok r -> gain_ok (run_gain frames r).
Proof.
  revert r. induction frames as [| f frames IH]; intros r H; simpl; [exact H |].
  apply IH, updateAutoGain_ok, H.
Qed.

Lemma initial_gain_ok : gain_ok initial_refs.
Proof. unfold gain_ok; simpl; lra. Qed.

Lemma decayed_pos (n : nat) (m : Q) : 0 < m -> 0 < decayed n m.
Proof.
  intros H. induction n as [| n IH]; [exact H |].
  change (decayed (S n) m) with (decayed n m * 0.995). lra.
Qed.

Lemma maxVolume_updateAutoGain (data : frame) (r : Refs) :
  maxVolumeRef (updateAutoGain data r) =
  if Qltb (maxVolumeRef r) (frameMax data) then frameMax data
  else maxVolumeRef r * 0.995.
Proof. reflexivity. Qed.

Lemma frameMax_silent : frameMax silent = 0.
Proof. vm_compute. reflexivity. Qed.

Lemma run_gain_snoc (a : list frame) (f : frame) (r : Refs) :
  run_gain (a ++ [f]) r = updateAutoGain f (run_gain a r).
Proof. unfold run_gain. rewrite fold_left_app. reflexivity. Qed.

Lemma repeat_snoc {A : Type} (x : A) (n : nat) : repeat x (S n) = repeat x n ++ [x].
Proof.
  induction n as [| n IH]; [reflexivity |].
  change (x :: repeat x (S n) = x :: (repeat x n ++ [x])).
  f_equal. exact IH.
Qed.

Lemma silence_decays (n : nat) (r : Refs) :
  0 < maxVolumeRef r ->
  maxVolumeRef (run_gain (repeat silent n) r) = decayed n (maxVolumeRef r).
Proof.
  intros H. induction n as [| n IH]; [reflexivity |].
  rewrite repeat_snoc, run_gain_snoc, maxVolume_updateAutoGain, IH, frameMax_silent.
  pose proof (decayed_pos n _ H) as Hp.
  destruct (Qltb (decayed n (maxVolumeRef r)) 0) eqn:E.
  - apply Qltb_lt in E. lra.
  - reflexivity.
Qed.

(** C4, as stated, fails: after 139 silent frames from the initial state the
    stored envelope [maxVolumeRef] is below 50. *)
Lemma peak_envelope_falls_below_floor :
  ~ 50 <= maxVolumeRef (run_gain (repeat silent 139) initial_refs).
Proof.
  rewrite silence_decays by (simpl; lra).
  apply Qlt_not_le. vm_compute. reflexivity.
Qed.

(** C4 (amended): for every sequence of gain updates from the initial state,
    the stored envelope stays positive, the floored value
    [safeMax = max(maxVolumeRef, 50)] that divides 255 never drops below 50,
    and the gain stays in (0, 5.1]. *)
Theorem gain_floor_invariant (frames : list frame) :
  let r := run_gain frames initial_refs in
  0 < maxVolumeRef r /\
  50 <= safeMax (maxVolumeRef r) /\
  0 < gainRef r /\ gainRef r <= 5.1.
Proof.
  intros r.
  destruct (run_gain_ok frames initial_refs initial_gain_ok) as (H1 & H2 & H3).
  repeat split; try assumption. apply safeMax_floor.
Qed.

(** ** Band extraction *)

Lemma initial_refs_ok : refs_ok initial_refs.
Proof.
  split; [apply initial_gain_ok |]. simpl. repeat split; lra.
Qed.

Lemma Qnat_succ (n : nat) :
  inject_Z (Z.of_nat (S n)) == inject_Z (Z.of_nat n) + 1.
Proof.
  rewrite Nat2Z.inj_succ. unfold Z.succ. rewrite inject_Z_plus. reflexivity.
Qed.

(** Summing bins that all exist gives a number between 0 and 255 per bin. *)
Lemma sum_in_range (data : frame) (n : nat) :
  forall (lo : nat) (a : Q),
  (lo + n <= length data)%nat ->
  exists q,
    fold_left (fun s i => add s (data_at data i)) (seq lo n) (Num a) = Num q /\
    a <= q /\ q <= a + 255 * inject_Z (Z.of_nat n).
Proof.
  induction n as [| n IH]; intros lo a Hlen.
  - exists a. split; [reflexivity |].
    change (inject_Z (Z.of_nat 0)) with 0. lra.
  - simpl fold_left. unfold data_at at 2.
    destruct (nth_error data lo) as [b |] eqn:Hb.
    + destruct (IH (S lo) (a + byteQ b)) as (q & Hq & Hlo & Hhi); [lia |].
      exists q. split; [exact Hq |].
      pose proof (byteQ_range b) as [B0 B1].
      rewrite Qnat_succ. lra.
    + apply nth_error_None in Hb. lia.
Qed.

Lemma counted_sum_in_range (data : frame) (n : nat) :
  forall (lo c : nat) (a : Q),
  (n = 0 \/ lo + n <= length data)%nat ->
  exists q,
    fold_left (fun acc i => (fun '(s, c) => (add s (data_at data i), S c)) acc)
              (seq lo n) (Num a, c) = (Num q, (c + n)%nat) /\
    a <= q /\ q <= a + 255 * inject_Z (Z.of_nat n).
Proof.
  induction n as [| n IH]; intros lo c a Hlen.
  - exists a. rewrite Nat.add_0_r. split; [reflexivity |].
    change (inject_Z (Z.of_nat 0)) with 0. lra.
  - destruct Hlen as [Hlen | Hlen]; [discriminate |].
    simpl fold_left. unfold data_at at 2.
    destruct (nth_error data lo) as [b |] eqn:Hb.
    + destruct (IH (S lo) (S c) (a + byteQ b)) as (q & Hq & Hlo & Hhi);
        [right; lia |].
      exists q. split.
      * rewrite Hq. f_equal. lia.
      * pose proof (byteQ_range b) as [B0 B1].
        rewrite Qnat_succ. lra.
    + apply nth_error_None in Hb. lia.
Qed.

(** The average of [n > 0] summed bins lies in [0, 255]. *)
Lemma average_in_range (q : Q) (n : nat) :
  (0 < n)%nat -> 0 <= q -> q <= 0 + 255 * inject_Z (Z.of_nat n) ->
  0 <= q / inject_Z (Z.of_nat n) /\ q / inject_Z (Z.of_nat n) <= 255.
Proof.
  intros Hn H0 H1.
  assert (Hp : 0 < inject_Z (Z.of_nat n)).
  { change 0 with (inject_Z 0). rewrite <- Zlt_Qlt. lia. }
  split.
  - apply Qle_shift_div_l; lra.
  - apply Qle_shift_div_r; lra.
Qed.

Lemma scaled_in_range (x g k : Q) :
  0 <= x -> x <= 255 -> 0 < g -> g <= k -> 0 <= x * g /\ x * g <= 255 * k.
Proof. intros. split; nra. Qed.

Ltac minmax :=
  repeat match goal with
  | |- context [Qmax ?a ?b] =>
    let H := fresh "M" in destruct (Qmax_cases a b) as [[-> H] | [-> H]]
  | |- context [Qmin ?a ?b] =>
    let H := fresh "M" in destruct (Qmin_cases a b) as [[-> H] | [-> H]]
  end.

Ltac js_ops := cbv [add sub mul divq max min lift2 within nonneg is_number].

Lemma history_updateAutoGain (data : frame) (r : Refs) :
  historyRef (updateAutoGain data r) = historyRef r.
Proof. reflexivity. Qed.

Lemma getBassEnergy_ok (data : frame) (r : Refs) :
  refs_ok r -> (4 <= length data)%nat ->
  refs_ok (fst (getBassEnergy (Some data) r)) /\
  within 0 bass_ceiling (snd (getBassEnergy (Some data) r)).
Proof.
  intros (Hg & Hb & Hh & Hm) Hlen.
  destruct (sum_in_range data 4 0 0) as (q & Hq & Q0 & Q1); [simpl; lia |].
  assert (E : for_range 0 bassBins (fun i s => add s (data_at data i)) (Num 0) = Num q)
    by exact Hq.
  pose proof (updateAutoGain_ok data r Hg) as Hg'.
  cbv beta iota zeta delta [getBassEnergy getFrequencyData].
  rewrite E, history_updateAutoGain.
  set (r' := updateAutoGain data r) in *.
  destruct Hg' as (G0 & G1 & G2).
  destruct (average_in_range q 4) as [A0 A1]; [lia | lra | exact Q1 |].
  change (inject_Z (Z.of_nat bassBins)) with (inject_Z (Z.of_nat 4)).
  destruct (scaled_in_range _ (gainRef r') 5.1 A0 A1 G1 G2) as [C0 C1].
  destruct (bass (historyRef r)) as [| p]; [contradiction |]. simpl in Hb.
  unfold refs_ok, gain_ok, set_history, set_bass, bass_ceiling. js_ops.
  cbn [fst snd maxVolumeRef gainRef historyRef bass high mid].
  set (c := _ * gainRef r') in *. clearbody c.
  repeat split; try assumption; minmax; lra.
Qed.

Lemma getMidEnergy_ok (data : frame) (r : Refs) :
  refs_ok r -> (30 <= length data)%nat ->
  refs_ok (fst (getMidEnergy (Some data) r)) /\
  within 0 255 (snd (getMidEnergy (Some data) r)).
Proof.
  intros (Hg & Hb & Hh & Hm) Hlen.
  destruct (counted_sum_in_range data 25 5 0 0) as (q & Hq & Q0 & Q1);
    [right; simpl; lia |].
  assert (E : for_range 5 30 (fun i '(s, c) => (add s (data_at data i), S c)) (Num 0, O)
              = (Num q, 25%nat)) by exact Hq.
  cbv beta iota zeta delta [getMidEnergy getFrequencyData].
  rewrite E. cbv beta iota. change (0 <? 25)%nat with true. cbv iota.
  destruct Hg as (G0 & G1 & G2).
  destruct (average_in_range q 25) as [A0 A1]; [lia | lra | exact Q1 |].
  destruct (scaled_in_range _ (gainRef r) 5.1 A0 A1 G1 G2) as [C0 C1].
  destruct (mid (historyRef r)) as [| p]; [contradiction |]. simpl in Hm.
  unfold refs_ok, gain_ok, set_history, set_mid. js_ops.
  cbn [fst snd maxVolumeRef gainRef historyRef bass high mid].
  set (c := _ * gainRef r) in *. clearbody c.
  repeat split; try assumption; minmax; lra.
Qed.

(** The high band needs no assumption on the frame: its loop stops at
    [min(data.length, 150)]. *)
Lemma getHighEnergy_ok (data : frame) (r : Refs) :
  refs_ok r ->
  refs_ok (fst (getHighEnergy (Some data) r)) /\
  within 0 255 (snd (getHighEnergy (Some data) r)).
Proof.
  intros (Hg & Hb & Hh & Hm).
  set (hi := Nat.min (length data) 150).
  destruct (counted_sum_in_range data (hi - 50) 50 0 0) as (q & Hq & Q0 & Q1);
    [subst hi; lia |].
  assert (E : for_range 50 hi (fun i '(s, c) => (add s (data_at data i), S c)) (Num 0, O)
              = (Num q, (hi - 50)%nat)) by exact Hq.
  cbv beta iota zeta delta [getHighEnergy getFrequencyData].
  fold hi. rewrite E. cbv beta iota.
  destruct Hg as (G0 & G1 & G2).
  destruct (high (historyRef r)) as [| p]; [contradiction |]. simpl in Hh.
  destruct (0 <? hi - 50)%nat eqn:Hc.
  - apply Nat.ltb_lt in Hc.
    destruct (average_in_range q (hi - 50)) as [A0 A1]; [lia | lra | exact Q1 |].
    destruct (scaled_in_range _ (gainRef r) 5.1 A0 A1 G1 G2) as [C0 C1].
    unfold refs_ok, gain_ok, set_history, set_high. js_ops.
    cbn [fst snd maxVolumeRef gainRef historyRef bass high mid].
    set (c := _ * gainRef r) in *. clearbody c.
    repeat split; try assumption; minmax; lra.
  - unfold refs_ok, gain_ok, set_history, set_high. js_ops.
    cbn [fst snd maxVolumeRef gainRef historyRef bass high mid].
    repeat split; try assumption; minmax; lra.
Qed.

Ltac wide_frame := unfold wide; cbn [snd]; apply Nat.leb_le; vm_compute; reflexivity.

Lemma extract_ok (p : poll) (r : Refs) :
  refs_ok r -> wide p ->
  refs_ok (fst (extract p r)) /\ within 0 (ceiling (fst p)) (snd (extract p r)).
Proof.
  intros Hr Hw. destruct p as [b [data |]]; unfold wide in Hw; simpl in Hw.
  - destruct b; unfold extract, ceiling; cbn [fst snd].
    + apply getBassEnergy_ok; [exact Hr | lia].
    + apply getMidEnergy_ok; [exact Hr | lia].
    + apply getHighEnergy_ok; exact Hr.
  - destruct b; unfold extract, ceiling, bass_ceiling; cbn; (split; [exact Hr | lra]).
Qed.

Lemma run_polls_ok (ps : list poll) (r : Refs) :
  refs_ok r -> Forall wide ps -> refs_ok (run_polls ps r).
Proof.
  revert r. induction ps as [| p ps IH]; intros r Hr Hw; [exact Hr |].
  inversion Hw as [| ? ? Hp Hps]; subst.
  apply IH; [| exact Hps]. apply extract_ok; assumption.
Qed.

(** C1 fails on the code for the bass band: polled on a silent frame and
    then on a full-scale frame, [getBassEnergy] returns about 262.17, outside
    [0, 255].  The smoothed gain is still above 1 when the loud frame
    arrives; the transient part is clamped to 255 but the blended body part
    is not. *)
Lemma bass_energy_exceeds_255 :
  within 262 263
    (snd (extract (Bass, Some loud) (run_polls [(Bass, Some silent)] initial_refs))) /\
  ~ within 0 255
      (snd (extract (Bass, Some loud) (run_polls [(Bass, Some silent)] initial_refs))).
Proof.
  split.
  - vm_compute. split; discriminate.
  - intros H. vm_compute in H. destruct H as [_ H]. apply H. reflexivity.
Qed.

(** What the extractors do guarantee: for every sequence of polls on frames
    of at least 30 bins, starting from the initial refs, [getMidEnergy] and
    [getHighEnergy] return a value in [0, 255], and [getBassEnergy] a value
    in [0, 255*0.8 + 255*5.1*0.2]. *)
Theorem band_energy_range (ps : list poll) (p : poll) :
  Forall wide ps -> wide p ->
  within 0 (ceiling (fst p)) (snd (extract p (run_polls ps initial_refs))).
Proof.
  intros Hps Hp.
  apply extract_ok; [| exact Hp].
  apply run_polls_ok; [apply initial_refs_ok | exact Hps].
Qed.

Lemma band_energy_range_witness :
  within 0 255
    (snd (extract (Mid, Some loud)
            (run_polls [(Bass, Some silent); (High, Some loud)] initial_refs))).
Proof.
  apply (band_energy_range [(Bass, Some silent); (High, Some loud)] (Mid, Some loud)).
  - repeat (apply Forall_cons; [wide_frame |]). apply Forall_nil.
  - wide_frame.
Defined.















(** ** Where the gain is updated *)

(** C6, as stated, fails: [getMidEnergy] leaves the envelope and the gain as
    they were, on a frame for which a gain update would lift the envelope
    from 100 to 255. *)
Lemma mid_poll_leaves_gain_alone :
  gain_state (fst (getMidEnergy (Some loud) initial_refs)) = gain_state initial_refs /\
  ~ maxVolumeRef (updateAutoGain loud initial_refs) == maxVolumeRef initial_refs.
Proof.
  split.
  - unfold getMidEnergy.
    destruct (for_range 5 30 _ _) as [sum count]. reflexivity.
  - vm_compute. discriminate.
Qed.

(** C6 (amended): the gain update runs inside [getBassEnergy] only.
    [getMidEnergy] and [getHighEnergy] read the gain and leave the envelope
    and the gain unchanged, so a tick that polls bass, high and mid on one
    frame applies the gain adaptation exactly once. *)
Theorem gain_updated_by_bass_only (an : analyser) (r : Refs) :
  gain_state (fst (getBassEnergy an r)) =
    match an with
    | Some data => gain_state (updateAutoGain data r)
    | None => gain_state r
    end /\
  gain_state (fst (getMidEnergy an r)) = gain_state r /\
  gain_state (fst (getHighEnergy an r)) = gain_state r /\
  gain_state (run_polls [(Bass, an); (High, an); (Mid, an)] r) =
    gain_state (fst (getBassEnergy an r)).
Proof.
  assert (Hm : forall r, gain_state (fst (getMidEnergy an r)) = gain_state r).
  { intros r0. unfold getMidEnergy. destruct an as [data |]; [| reflexivity].
    destruct (for_range 5 30 _ _) as [sum count]. reflexivity. }
  assert (Hh : forall r, gain_state (fst (getHighEnergy an r)) = gain_state r).
  { intros r0. unfold getHighEnergy. destruct an as [data |]; [| reflexivity].
    destruct (for_range 50 _ _ _) as [sum count]. reflexivity. }
  repeat split.
  - destruct an; reflexivity.
  - apply Hm.
  - apply Hh.
  - unfold run_polls, extract. cbn [fold_left fst snd].
    rewrite Hm, Hh. reflexivity.
Qed.

(** ** Tempo estimator *)

Lemma decay_keeps_beats (s : BeatState) :
  lastBeatTime (decay_threshold s) = lastBeatTime s /\
  intervals (decay_threshold s) = intervals s /\
  minThreshold (decay_threshold s) = minThreshold s.
Proof.
  unfold decay_threshold.
  destruct (ltb _ _); repeat split; reflexivity.
Qed.

(** C3, as stated, fails: 100 ms after an accepted beat a louder frame
    crosses the threshold and fails the debounce; [lastBeatTime] is kept, but
    the threshold is raised all the same, from 104.5 to 220. *)
Lemma threshold_raised_inside_debounce :
  crossing (Num 200) (decay_threshold after_first_beat) = true /\
  debounced 1100 (decay_threshold after_first_beat) = false /\
  lastBeatTime (fst (detectBpm (Num 200) 1100 after_first_beat)) =
    lastBeatTime after_first_beat /\
  threshold (fst (detectBpm (Num 200) 1100 after_first_beat)) =
    mul (Num 200) (Num 1.1) /\
  gtb (threshold (fst (detectBpm (Num 200) 1100 after_first_beat)))
      (threshold (decay_threshold after_first_beat)) = true.
Proof.
  repeat split; vm_compute; reflexivity.
Qed.

(** C3 (amended): in every call, with the threshold decayed and floored
    first, [lastBeatTime] becomes [now] exactly when the bass energy crosses
    both thresholds and [now - lastBeatTime > 250]; the threshold becomes
    [bassEnergy * 1.1] on every crossing, whether or not the debounce
    passes, and is otherwise left at its decayed value. *)
Theorem onset_updates (bassEnergy : num) (now : Q) (s : BeatState) :
  lastBeatTime (fst (detectBpm bassEnergy now s)) =
    (if crossing bassEnergy (decay_threshold s) && debounced now (decay_threshold s)
     then now else lastBeatTime s) /\
  threshold (fst (detectBpm bassEnergy now s)) =
    (if crossing bassEnergy (decay_threshold s)
     then mul bassEnergy (Num 1.1) else threshold (decay_threshold s)).
Proof.
  destruct (decay_keeps_beats s) as (HL & _ & _).
  unfold detectBpm. cbn [fst].
  destruct (crossing bassEnergy (decay_threshold s)); cbn [andb].
  - destruct (debounced now (decay_threshold s)).
    + split; [| reflexivity].
      destruct (Qltb 300 _ && Qltb _ 1000); [| reflexivity].
      cbn [set_intervals intervals set_lastBeatTime].
      destruct (8 <? _)%nat; reflexivity.
    + split; [exact HL | reflexivity].
  - split; [exact HL | reflexivity].
Qed.

Lemma intervals_detectBpm (bassEnergy : num) (now : Q) (s : BeatState) :
  intervals (fst (detectBpm bassEnergy now s)) = intervals s \/
  (plausible (now - lastBeatTime s) /\
   intervals (fst (detectBpm bassEnergy now s)) =
     pushed (intervals s) (now - lastBeatTime s)).
Proof.
  destruct (decay_keeps_beats s) as (HL & HI & _).
  unfold detectBpm. cbn [fst].
  destruct (crossing bassEnergy (decay_threshold s)); [| left; exact HI].
  destruct (debounced now (decay_threshold s)); [| left; exact HI].
  cbn [set_threshold intervals]. rewrite HL.
  destruct (Qltb 300 (now - lastBeatTime s)) eqn:E1; [| left; exact HI].
  destruct (Qltb (now - lastBeatTime s) 1000) eqn:E2; [| left; exact HI].
  right. apply Qltb_lt in E1, E2. split; [split; assumption |].
  cbn [andb set_intervals set_lastBeatTime intervals].
  rewrite HI. unfold pushed.
  destruct (8 <? _)%nat; reflexivity.
Qed.

Lemma pushed_ok (l : list Q) (x : Q) :
  Forall plausible l -> (length l <= 8)%nat -> plausible x ->
  Forall plausible (pushed l x) /\ (length (pushed l x) <= 8)%nat.
Proof.
  intros Hl Hn Hx.
  assert (Hall : Forall plausible (l ++ [x])).
  { apply Forall_app. split; [exact Hl | constructor; [exact Hx | constructor]]. }
  assert (Hlen : length (l ++ [x]) = S (length l)).
  { rewrite length_app. simpl. lia. }
  unfold pushed. destruct (8 <? length (l ++ [x]))%nat eqn:E.
  - destruct (l ++ [x]) as [| y t]; [simpl in Hlen; lia |].
    simpl in *. inversion Hall; subst. split; [assumption | lia].
  - apply Nat.ltb_ge in E. split; [exact Hall | exact E].
Qed.

Lemma detectBpm_ok (bassEnergy : num) (now : Q) (s : BeatState) :
  beat_ok s -> beat_ok (fst (detectBpm bassEnergy now s)).
Proof.
  intros [Hall Hlen].
  destruct (intervals_detectBpm bassEnergy now s) as [E | [Hp E]];
    unfold beat_ok; rewrite E.
  - split; assumption.
  - apply pushed_ok; assumption.
Qed.


Lemma sum_plausible (l : list Q) :
  forall (x a : Q), Forall plausible (x :: l) ->
  a + 300 * inject_Z (Z.of_nat (length (x :: l))) < fold_left Qplus (x :: l) a /\
  fold_left Qplus (x :: l) a < a + 1000 * inject_Z (Z.of_nat (length (x :: l))).
Proof.
  induction l as [| y l IH]; intros x a H; inversion H as [| ? ? [Hx Hx'] Hl]; subst.
  - simpl. change (inject_Z 1) with 1. lra.
  - specialize (IH y (a + x) Hl).
    change (fold_left Qplus (x :: y :: l) a) with (fold_left Qplus (y :: l) (a + x)).
    change (length (x :: y :: l)) with (S (length (y :: l))).
    rewrite Qnat_succ. lra.
Qed.

Lemma average_plausible (l : list Q) :
  Forall plausible l -> (0 < length l)%nat -> plausible (average l).
Proof.
  intros H Hn. destruct l as [| x l]; [simpl in Hn; lia |].
  destruct (sum_plausible l x 0 H) as [S0 S1].
  assert (Hp : 0 < inject_Z (Z.of_nat (length (x :: l)))).
  { change 0 with (inject_Z 0). rewrite <- Zlt_Qlt. simpl length. lia. }
  unfold average, plausible. split.
  - apply Qlt_shift_div_l; lra.
  - apply Qlt_shift_div_r; lra.
Qed.

Lemma round_bpm (avg : Q) :
  plausible avg -> (60 <= round (60000 / avg) <= 200)%Z.
Proof.
  intros [H0 H1]. unfold round.
  assert (L : 60 < 60000 / avg) by (apply Qlt_shift_div_l; lra).
  assert (U : 60000 / avg < 200) by (apply Qlt_shift_div_r; lra).
  set (y := 60000 / avg + 0.5) in *.
  pose proof (Qfloor_le y) as F0. pose proof (Qlt_floor y) as F1.
  split.
  - assert (G : inject_Z 60 < inject_Z (Qfloor y + 1)).
    { change (inject_Z 60) with 60. subst y. lra. }
    rewrite <- Zlt_Qlt in G. lia.
  - assert (G : inject_Z (Qfloor y) < inject_Z 201).
    { change (inject_Z 201) with 201. subst y. lra. }
    rewrite <- Zlt_Qlt in G. lia.
Qed.

(** ** The estimate against the exact quotient *)








Lemma initial_beat_ok : beat_ok initial_beat.
Proof. split; [constructor | simpl; lia]. Qed.

Example steady_tempo :
  snd (detectBpm (Num 200) 2000 (run_beats steady_calls initial_beat)) = Some 120%Z.
Proof. vm_compute. reflexivity. Qed.


(** ** Sequencer *)

(** C5, as stated, fails: asked for the style "acid", [regenerate] returns
    normally, stores the style, and takes the tempo, the echo settings and
    the pattern that the same draws give for "minimal". *)
Lemma unknown_style_falls_back_to_minimal :
  acid <> minimal /\ acid <> hard /\
  style (fst (regenerate (Some acid) (declared hard) (env0 (fun _ => 0.5)))) = acid /\
  tempo (fst (regenerate (Some acid) (declared hard) (env0 (fun _ => 0.5)))) =
    tempo (fst (regenerate (Some minimal) (declared hard) (env0 (fun _ => 0.5)))) /\
  bassPattern (fst (regenerate (Some acid) (declared hard) (env0 (fun _ => 0.5)))) =
    bassPattern (fst (regenerate (Some minimal) (declared hard) (env0 (fun _ => 0.5)))).
Proof.
  split; [discriminate |]. split; [discriminate |].
  split; [vm_compute; reflexivity |].
  split; vm_compute; reflexivity.
Qed.

(** C5 (amended): [regenerate] rejects nothing.  Every non-empty style
    other than "hard" is stored and takes the branch of "minimal": the state
    and the draws consumed are those of [regenerate "minimal"], but for the
    stored style, and the tempo is 126 + floor(4 * draw). *)
Theorem any_other_style_is_minimal (st : string) (s : TechnoSynth) (e : Env) :
  st <> EmptyString -> st <> hard ->
  regenerate (Some st) s e =
    (with_style st (fst (regenerate (Some minimal) s e)),
     snd (regenerate (Some minimal) s e)) /\
  tempo (fst (regenerate (Some st) s e)) = (126 + Qfloor (draws e (cursor e) * 4))%Z.
Proof.
  intros Hne Hnh.
  assert (T : truthy (Some st) = Some st) by (destruct st; [contradiction | reflexivity]).
  assert (H1 : is_hard (with_style st s) = false)
    by (unfold is_hard; simpl; apply String.eqb_neq; exact Hnh).
  unfold regenerate. rewrite T. cbn [truthy minimal].
  rewrite H1.
  change (is_hard (with_style "minimal" s)) with false. cbv iota.
  unfold random. cbn [draws cursor].
  destruct (generateMinimalPattern _) as [pat e']. split; reflexivity.
Qed.

Lemma any_other_style_is_minimal_witness :
  tempo (fst (regenerate (Some acid) (declared hard) (env0 (fun _ => 0.5)))) = 128%Z.
Proof.
  apply (any_other_style_is_minimal acid (declared hard) (env0 (fun _ => 0.5)));
    discriminate.
Defined.

Ltac by_cases :=
  repeat match goal with
         | |- context [if ?c then _ else _] => destruct c
         end; reflexivity.

Lemma quarter_spec (stepIndex : nat) :
  ((stepIndex mod 16) mod 4 =? 0)%nat = quarter stepIndex.
Proof.
  unfold quarter.
  pose proof (Nat.mod_upper_bound stepIndex 16) as H.
  set (k := (stepIndex mod 16)%nat) in *.
  assert (Hk : (k < 16)%nat) by (apply H; discriminate). clear H.
  clearbody k.
  do 16 (destruct k as [| k]; [reflexivity |]). lia.
Qed.

Lemma kick_voices_hats (s : TechnoSynth) (stepInBar : nat) (time : Q) (e : Env) :
  kick_voices (schedule_hats s stepInBar time e) = kick_voices e.
Proof.
  unfold schedule_hats, playHiHat, random. by_cases.
Qed.

Lemma kick_voices_bass (s : TechnoSynth) (stepIndex : nat) (time : Q) (e : Env) :
  kick_voices (schedule_bass s stepIndex time e) = kick_voices e.
Proof.
  unfold schedule_bass. destruct (gtb _ _); reflexivity.
Qed.

Lemma kick_voices_perc (s : TechnoSynth) (time : Q) (e : Env) :
  kick_voices (schedule_perc s time e) = kick_voices e.
Proof.
  unfold schedule_perc, random. by_cases.
Qed.

Lemma kick_voices_kick (s : TechnoSynth) (stepInBar : nat) (time : Q) (e : Env) :
  kick_voices (schedule_kick s stepInBar time e) =
  (if (stepInBar mod 4 =? 0)%nat
   then [if is_hard s then RumbleKick time else Kick time]
   else []) ++ kick_voices e.
Proof.
  unfold schedule_kick.
  destruct (stepInBar mod 4 =? 0)%nat; [| reflexivity].
  destruct (is_hard s); reflexivity.
Qed.

(** One step fires a kick exactly on a quarter, whatever the draws. *)
Lemma kick_voices_step (w : TechnoSynth * Env) :
  kick_voices (snd (step w)) =
  (if quarter (current16thNote (fst w))
   then [if is_hard (fst w) then RumbleKick (nextNoteTime (fst w))
         else Kick (nextNoteTime (fst w))]
   else []) ++ kick_voices (snd w).
Proof.
  destruct w as [s e]. unfold step, scheduleNote. cbn [fst snd].
  rewrite kick_voices_perc, kick_voices_bass, kick_voices_hats, kick_voices_kick.
  rewrite quarter_spec. reflexivity.
Qed.

Lemma is_hard_step (w : TechnoSynth * Env) : is_hard (fst (step w)) = is_hard (fst w).
Proof. destruct w as [s e]. reflexivity. Qed.

Lemma is_hard_steps (k : nat) (w : TechnoSynth * Env) :
  is_hard (fst (Nat.iter k step w)) = is_hard (fst w).
Proof.
  induction k as [| k IH]; [reflexivity |].
  change (Nat.iter (S k) step w) with (step (Nat.iter k step w)).
  rewrite is_hard_step. exact IH.
Qed.

Lemma current16thNote_step (w : TechnoSynth * Env) :
  (current16thNote (fst w) < 64)%nat ->
  current16thNote (fst (step w)) = ((current16thNote (fst w) + 1) mod 64)%nat.
Proof.
  destruct w as [s e]. intros H.
  change (current16thNote (fst (step (s, e))))
    with (if (S (current16thNote s) =? 64)%nat then 0%nat else S (current16thNote s)).
  change (fst (s, e)) with s in *.
  destruct (S (current16thNote s) =? 64)%nat eqn:E.
  - apply Nat.eqb_eq in E. replace (current16thNote s + 1)%nat with 64%nat by lia.
    reflexivity.
  - apply Nat.eqb_neq in E. rewrite Nat.mod_small; lia.
Qed.

Lemma current16thNote_steps (k : nat) (w : TechnoSynth * Env) :
  (current16thNote (fst w) < 64)%nat ->
  current16thNote (fst (Nat.iter k step w)) = ((current16thNote (fst w) + k) mod 64)%nat.
Proof.
  intros H. induction k as [| k IH].
  - change (Nat.iter 0 step w) with w.
    rewrite Nat.add_0_r, Nat.mod_small; [reflexivity | exact H].
  - change (Nat.iter (S k) step w) with (step (Nat.iter k step w)).
    rewrite current16thNote_step.
    + rewrite IH, Nat.Div0.add_mod_idemp_l. f_equal. lia.
    + rewrite IH. apply Nat.mod_upper_bound. discriminate.
Qed.

Lemma four_quarters_per_bar (start : nat) :
  (start < 64)%nat -> quarters_from start 16 = 4%nat.
Proof.
  intros H.
  assert (A : forallb (fun s => (quarters_from s 16 =? 4)%nat) (seq 0 64) = true)
    by (vm_compute; reflexivity).
  rewrite forallb_forall in A.
  apply Nat.eqb_eq, A, in_seq. lia.
Qed.

Lemma kicks_steps (n : nat) (w : TechnoSynth * Env) :
  (current16thNote (fst w) < 64)%nat ->
  kicks (fired (snd (Nat.iter n step w))) =
  (kicks (fired (snd w)) + quarters_from (current16thNote (fst w)) n)%nat.
Proof.
  intros H. induction n as [| n IH].
  - unfold quarters_from. simpl. lia.
  - change (Nat.iter (S n) step w) with (step (Nat.iter n step w)).
    unfold kicks in *. fold (kick_voices (snd (step (Nat.iter n step w)))).
    rewrite kick_voices_step, length_app. unfold kick_voices. rewrite IH.
    rewrite current16thNote_steps by exact H.
    unfold quarters_from. rewrite seq_S, map_app, filter_app, length_app.
    cbn [map filter Nat.add].
    destruct (quarter _); simpl; lia.
Qed.

(** C8: in hard style, over 16 consecutive steps from any position, each
    step fires a kick (the rumble kick, at the step's own time) exactly when
    its index within the bar is 0, 4, 8 or 12, and the 16 steps fire 4 kicks
    in all, for every sequence of random draws. *)
Theorem hard_bar_has_four_kicks (w : TechnoSynth * Env) :
  is_hard (fst w) = true ->
  (current16thNote (fst w) < 64)%nat ->
  (forall k, (k < 16)%nat ->
     current16thNote (fst (Nat.iter k step w)) =
       ((current16thNote (fst w) + k) mod 64)%nat /\
     kick_voices (snd (step (Nat.iter k step w))) =
       (if quarter (current16thNote (fst (Nat.iter k step w)))
        then [RumbleKick (nextNoteTime (fst (Nat.iter k step w)))]
        else []) ++ kick_voices (snd (Nat.iter k step w))) /\
  kicks (fired (snd (Nat.iter 16 step w))) = (kicks (fired (snd w)) + 4)%nat.
Proof.
  intros Hh Hc. split.
  - intros k _. split.
    + apply current16thNote_steps, Hc.
    + rewrite kick_voices_step, is_hard_steps, Hh. reflexivity.
  - rewrite kicks_steps by exact Hc.
    rewrite four_quarters_per_bar by exact Hc. reflexivity.
Qed.

Lemma hard_bar_has_four_kicks_witness :
  kicks (fired (snd (Nat.iter 16 step hard_synth))) =
  (kicks (fired (snd hard_synth)) + 4)%nat.
Proof.
  refine (proj2 (hard_bar_has_four_kicks hard_synth _ _)).
  - vm_compute. reflexivity.
  - apply Nat.ltb_lt. vm_compute. reflexivity.
Defined.

(** C9: [stop] is total, a second [stop] changes nothing at all, and neither
    call moves [current16thNote]. *)
Theorem stop_twice (w : TechnoSynth * Env) :
  stop (stop w) = stop w /\
  current16thNote (fst (stop (stop w))) = current16thNote (fst (stop w)) /\
  current16thNote (fst (stop w)) = current16thNote (fst w) /\
  isPlaying (fst (stop w)) = false.
Proof.
  destruct w as [s e]. unfold stop.
  destruct (timerID s) as [[| id] |] eqn:T; cbn [timerID fst current16thNote isPlaying];
    try rewrite T; repeat split.
  unfold clearTimeout. cbn [pending draws cursor fired nextTimer sampleRate suspended].
  rewrite remove_remove_eq. reflexivity.
Qed.

(** *** The look-ahead loop runs to its exit *)

Lemma sixteenth_pos (s : TechnoSynth) : (0 < tempo s)%Z -> 0 < sixteenth s.
Proof.
  intros H. unfold sixteenth.
  assert (0 < inject_Z (tempo s)) by (change 0 with (inject_Z 0); rewrite <- Zlt_Qlt; exact H).
  assert (0 < 60.0 / inject_Z (tempo s)) by (apply Qlt_shift_div_l; lra).
  lra.
Qed.

(** Scheduling a note touches neither the pending timeouts nor the synth. *)
Lemma pending_scheduleNote (s : TechnoSynth) (stepIndex : nat) (time : Q) (e : Env) :
  pending (scheduleNote s stepIndex time e) = pending e.
Proof.
  assert (K : forall i t e, pending (schedule_kick s i t e) = pending e)
    by (intros; unfold schedule_kick, playRumbleKick, playKick; by_cases).
  assert (H : forall i t e, pending (schedule_hats s i t e) = pending e)
    by (intros; unfold schedule_hats, playHiHat, random; by_cases).
  assert (B : forall i t e, pending (schedule_bass s i t e) = pending e)
    by (intros; unfold schedule_bass, playBass; by_cases).
  assert (P : forall t e, pending (schedule_perc s t e) = pending e)
    by (intros; unfold schedule_perc, playIndustrialPerc, playClick, random; by_cases).
  unfold scheduleNote. rewrite P, B, H, K. reflexivity.
Qed.

Lemma step_fields (w : TechnoSynth * Env) :
  tempo (fst (step w)) = tempo (fst w) /\
  scheduleAheadTime (fst (step w)) = scheduleAheadTime (fst w) /\
  isPlaying (fst (step w)) = isPlaying (fst w) /\
  timerID (fst (step w)) = timerID (fst w) /\
  pending (snd (step w)) = pending (snd w) /\
  nextNoteTime (fst (step w)) = nextNoteTime (fst w) + sixteenth (fst w).
Proof.
  destruct w as [s e]. unfold step. cbn [fst snd].
  rewrite pending_scheduleNote.
  split; [reflexivity |]. split; [reflexivity |]. split; [reflexivity |].
  split; [reflexivity |]. split; reflexivity.
Qed.

Lemma look_ahead_fields (fuel : nat) (now : Q) :
  forall w,
  tempo (fst (look_ahead fuel now w)) = tempo (fst w) /\
  isPlaying (fst (look_ahead fuel now w)) = isPlaying (fst w) /\
  pending (snd (look_ahead fuel now w)) = pending (snd w).
Proof.
  induction fuel as [| fuel IH]; intros w; [repeat split |].
  cbn [look_ahead]. destruct (Qltb _ _); [| repeat split].
  destruct (IH (step w)) as (-> & -> & ->).
  destruct (step_fields w) as (-> & _ & -> & _ & -> & _). repeat split.
Qed.

Lemma look_ahead_exits (fuel : nat) (now : Q) :
  forall w,
  0 < sixteenth (fst w) ->
  now + scheduleAheadTime (fst w) - nextNoteTime (fst w)
    < inject_Z (Z.of_nat fuel) * sixteenth (fst w) ->
  now + scheduleAheadTime (fst (look_ahead fuel now w))
    <= nextNoteTime (fst (look_ahead fuel now w)).
Proof.
  induction fuel as [| fuel IH]; intros w Hd Hx.
  - cbn [look_ahead]. change (inject_Z (Z.of_nat 0)) with 0 in Hx. lra.
  - cbn [look_ahead].
    destruct (Qltb _ _) eqn:E; [| apply Qltb_ge in E; exact E].
    destruct (step_fields w) as (Ht & Ha & _ & _ & _ & Hn).
    assert (Hs : sixteenth (fst (step w)) = sixteenth (fst w))
      by (unfold sixteenth; rewrite Ht; reflexivity).
    apply IH; rewrite Hs; [exact Hd |].
    rewrite Ha, Hn. rewrite Qnat_succ in Hx. lra.
Qed.

Lemma iterations_enough (now : Q) (s : TechnoSynth) :
  0 < sixteenth s ->
  now + scheduleAheadTime s - nextNoteTime s
    < inject_Z (Z.of_nat (iterations now s)) * sixteenth s.
Proof.
  intros Hd. unfold iterations. fold (sixteenth s).
  set (x := now + scheduleAheadTime s - nextNoteTime s).
  set (n := Z.to_nat (Qceiling (x / sixteenth s))).
  assert (Hq : x / sixteenth s <= inject_Z (Z.of_nat n)).
  { apply Qle_trans with (inject_Z (Qceiling (x / sixteenth s))).
    - apply Qle_ceiling.
    - rewrite <- Zle_Qle. subst n. lia. }
  assert (Hx : x == sixteenth s * (x / sixteenth s))
    by (rewrite Qmult_div_r; [reflexivity | lra]).
  rewrite Qnat_succ.
  assert (Hm : sixteenth s * (x / sixteenth s) <= sixteenth s * inject_Z (Z.of_nat n))
    by (apply Qmult_le_l; assumption).
  lra.
Qed.

Lemma scheduler_exits (now : Q) (w : TechnoSynth * Env) :
  (0 < tempo (fst w))%Z ->
  now + scheduleAheadTime (fst (scheduler now w)) <= nextNoteTime (fst (scheduler now w)) /\
  isPlaying (fst (scheduler now w)) = isPlaying (fst w) /\
  (isPlaying (fst w) = true ->
   exists id, timerID (fst (scheduler now w)) = Some id /\
              In id (pending (snd (scheduler now w)))).
Proof.
  intros Ht.
  pose proof (look_ahead_exits (iterations now (fst w)) now w
                (sixteenth_pos _ Ht) (iterations_enough now (fst w) (sixteenth_pos _ Ht)))
    as Hexit.
  destruct (look_ahead_fields (iterations now (fst w)) now w) as (_ & Hp & _).
  unfold scheduler.
  destruct (look_ahead (iterations now (fst w)) now w) as [s e].
  cbn [fst snd] in *.
  destruct (isPlaying s) eqn:P.
  - unfold setTimeout. cbn [fst snd with_timer nextNoteTime scheduleAheadTime
                            isPlaying timerID pending].
    split; [exact Hexit |]. split; [congruence |].
    intros _. exists (nextTimer e). split; [reflexivity | left; reflexivity].
  - cbn [fst snd]. split; [exact Hexit |]. split; [congruence |].
    intros C. congruence.
Qed.

(** C10: [play] on a synth that is already playing returns the synth and its
    environment unchanged.  From the idle state, and only then, [play] sets
    [isPlaying], resets [current16thNote] to 0 and [nextNoteTime] to
    [currentTime + 0.05], and runs the scheduler from there; with a positive
    tempo the look-ahead loop runs to its exit and leaves a timeout
    pending. *)
Theorem play_while_playing (currentTime : Q) (w : TechnoSynth * Env) :
  (isPlaying (fst w) = true -> play currentTime w = w) /\
  (isPlaying (fst w) = false ->
     play currentTime w =
       scheduler currentTime
         (restarted currentTime (fst w),
          if suspended (snd w) then resume (snd w) else snd w) /\
     isPlaying (restarted currentTime (fst w)) = true /\
     current16thNote (restarted currentTime (fst w)) = 0%nat /\
     nextNoteTime (restarted currentTime (fst w)) = currentTime + 0.05 /\
     ((0 < tempo (fst w))%Z ->
        isPlaying (fst (play currentTime w)) = true /\
        currentTime + scheduleAheadTime (fst (play currentTime w))
          <= nextNoteTime (fst (play currentTime w)) /\
        exists id, timerID (fst (play currentTime w)) = Some id /\
                   In id (pending (snd (play currentTime w))))).
Proof.
  destruct w as [s e]. cbn [fst snd]. split; intros P.
  - unfold play. rewrite P. reflexivity.
  - assert (E : play currentTime (s, e) =
                scheduler currentTime
                  (restarted currentTime s, if suspended e then resume e else e))
      by (unfold play; rewrite P; reflexivity).
    split; [exact E |]. split; [reflexivity |]. split; [reflexivity |].
    split; [reflexivity |].
    intros Ht. rewrite E.
    destruct (scheduler_exits currentTime
                (restarted currentTime s, if suspended e then resume e else e) Ht)
      as (H1 & H2 & H3).
    split; [rewrite H2; reflexivity |]. split; [exact H1 |].
    apply H3. reflexivity.
Qed.

Lemma play_while_playing_witness : play 11 playing_synth = playing_synth.
Proof.
  refine (proj1 (play_while_playing 11 playing_synth) _).
  vm_compute. reflexivity.
Defined.

Example play_from_idle_schedules_step_0 :
  current16thNote (fst playing_synth) = 1%nat /\
  fired (snd playing_synth) = [RumbleKick 10.05].
Proof. split; vm_compute; reflexivity. Qed.

(* ------------------------------------------------------------------ *)
(** * Further properties of the sequencer *)

(** ** Presets *)

Lemma floor_of_unit_draw (x : Q) (k : Z) :
  (0 < k)%Z -> 0 <= x -> x < 1 -> (0 <= Qfloor (x * inject_Z k) <= k - 1)%Z.
Proof.
  intros Hk H0 H1.
  assert (K : 0 < inject_Z k) by (change 0 with (inject_Z 0); rewrite <- Zlt_Qlt; exact Hk).
  pose proof (Qfloor_le (x * inject_Z k)) as F0.
  pose proof (Qlt_floor (x * inject_Z k)) as F1.
  assert (P0 : 0 <= x * inject_Z k) by (apply Qmult_le_0_compat; lra).
  assert (P1 : x * inject_Z k < inject_Z k) by nra.
  split.
  - assert (G : inject_Z 0 < inject_Z (Qfloor (x * inject_Z k) + 1))
      by (change (inject_Z 0) with 0; lra).
    rewrite <- Zlt_Qlt in G. lia.
  - assert (G : inject_Z (Qfloor (x * inject_Z k)) < inject_Z k) by lra.
    rewrite <- Zlt_Qlt in G. lia.
Qed.

Lemma map_steps_entries (f : nat -> Env -> num * Env)
      (Inv : Env -> Prop) (P : nat -> num -> Prop) :
  (forall i e, Inv e -> P i (fst (f i e)) /\ Inv (snd (f i e))) ->
  forall e, Inv e ->
  Forall2 P (seq 0 64) (fst (map_steps f e)) /\ Inv (snd (map_steps f e)).
Proof.
  intros Hf.
  assert (G : forall l done acc e, Inv e -> Forall2 P done acc ->
            Forall2 P (done ++ l)
              (fst (fold_left
                      (fun '(acc, e) i => let '(x, e) := f i e in (acc ++ [x], e))
                      l (acc, e))) /\
            Inv (snd (fold_left
                      (fun '(acc, e) i => let '(x, e) := f i e in (acc ++ [x], e))
                      l (acc, e)))).
  { induction l as [| i l IH]; intros done acc e He Hacc.
    - rewrite app_nil_r. split; assumption.
    - cbn [fold_left]. destruct (Hf i e He) as [Hp He'].
      destruct (f i e) as [x e']. cbn [fst snd] in *.
      replace (done ++ i :: l) with ((done ++ [i]) ++ l)
        by (rewrite <- app_assoc; reflexivity).
      apply IH; [exact He' |].
      apply Forall2_app; [exact Hacc | constructor; [exact Hp | constructor]]. }
  intros e He. apply (G (seq 0 64) [] [] e He). constructor.
Qed.

Lemma hard_step_entry (i : nat) (e : Env) : hard_entry i (fst (hard_step i e)).
Proof.
  unfold hard_step, hard_entry, random.
  pose proof (Nat.mod_upper_bound i 16) as B.
  set (k := (i mod 16)%nat) in *.
  assert (Hk : (k < 16)%nat) by (apply B; discriminate). clear B. clearbody k.
  pose proof (Nat.div_mod_eq k 4) as D.
  destruct (k mod 4 =? 0)%nat eqn:E0; cbn [negb];
    [apply Nat.eqb_eq in E0 | apply Nat.eqb_neq in E0];
    destruct (12 <? k)%nat eqn:E12;
    [apply Nat.ltb_lt in E12 | apply Nat.ltb_ge in E12
    |apply Nat.ltb_lt in E12 | apply Nat.ltb_ge in E12];
    try lia;
    repeat match goal with
           | |- context [if ?c then _ else _] => destruct c
           end;
    cbn [fst];
    (split; [| split]);
    try (intros; first [contradiction | discriminate | assumption | reflexivity]);
    first [left; reflexivity | right; left; reflexivity | right; right; reflexivity].
Qed.

Lemma unit_draws_random (e : Env) : unit_draws e -> unit_draws (snd (random e)).
Proof. intros H. exact H. Qed.

Lemma minimal_step_entry (i : nat) (e : Env) :
  unit_draws e ->
  minimal_entry (fst (minimal_step i e)) /\ unit_draws (snd (minimal_step i e)).
Proof.
  intros U. unfold minimal_step, minimal_entry, random. cbn [draws cursor].
  destruct (Qltb (draws e (cursor e)) _); cbn [fst snd].
  - split; [| exact U].
    destruct (U (N.succ (cursor e))) as [Y0 Y1].
    pose proof (floor_of_unit_draw _ 2 eq_refl Y0 Y1) as F.
    change (inject_Z (Z.of_nat (length [1; 1.5]))) with (inject_Z 2).
    set (z := Qfloor (draws e (N.succ (cursor e)) * inject_Z 2)) in *.
    assert (Z : z = 0%Z \/ z = 1%Z) by lia.
    destruct Z as [-> | ->]; [right; left | right; right]; reflexivity.
  - split; [left; reflexivity | exact U].
Qed.

Lemma Forall2_seq_nth {A : Type} (P : nat -> A -> Prop) (n : nat) (l : list A) :
  Forall2 P (seq 0 n) l ->
  length l = n /\ forall i x, nth_error l i = Some x -> P i x.
Proof.
  intros H. split.
  - apply Forall2_length in H. rewrite length_seq in H. symmetry. exact H.
  - assert (G : forall l0 l, Forall2 P l0 l ->
                forall i x, nth_error l i = Some x ->
                exists j, nth_error l0 i = Some j /\ P j x).
    { clear. induction 1 as [| j y l0 l Hjy _ IH]; intros i x Hx.
      - destruct i; discriminate.
      - destruct i as [| i]; cbn in *.
        + injection Hx as <-. exists j. split; [reflexivity | exact Hjy].
        + apply IH, Hx. }
    intros i x Hx. destruct (G _ _ H i x Hx) as (j & Hj & Hp).
    rewrite nth_error_seq in Hj.
    destruct (i <? n)%nat; [| discriminate].
    injection Hj as <-. exact Hp.
Qed.

Lemma regenerate_fields (style_arg : option string) (s : TechnoSynth) (e : Env) :
  let s0 := match truthy style_arg with
            | Some st => with_style st s
            | None => s
            end in
  let s' := fst (regenerate style_arg s e) in
  style s' = style s0 /\
  tempo s' = (if is_hard s0 then 140 + Qfloor (draws e (cursor e) * 5)%Q
              else 126 + Qfloor (draws e (cursor e) * 4)%Q)%Z /\
  bassPattern s' =
    fst ((if is_hard s0 then generateHardPattern else generateMinimalPattern)
           (snd (random e))) /\
  delayGain s' = (if is_hard s0 then 0.4 else 0.1) /\
  delayTime s' = 60 / inject_Z (tempo s') * (if is_hard s0 then 0.75 else 0.5) /\
  isPlaying s' = isPlaying s /\ current16thNote s' = current16thNote s /\
  nextNoteTime s' = nextNoteTime s /\ timerID s' = timerID s.
Proof.
  intros s0 s'. subst s'. unfold regenerate. fold s0.
  assert (F : isPlaying s0 = isPlaying s /\ current16thNote s0 = current16thNote s /\
              nextNoteTime s0 = nextNoteTime s /\ timerID s0 = timerID s)
    by (subst s0; destruct (truthy style_arg); repeat split).
  destruct F as (F1 & F2 & F3 & F4).
  destruct (is_hard s0); unfold random; cbn [draws cursor].
  - destruct (generateHardPattern _) as [pat e']. cbn [fst snd].
    split; [reflexivity |]. split; [reflexivity |]. split; [reflexivity |].
    split; [reflexivity |]. split; [reflexivity |]. auto.
  - destruct (generateMinimalPattern _) as [pat e']. cbn [fst snd].
    split; [reflexivity |]. split; [reflexivity |]. split; [reflexivity |].
    split; [reflexivity |]. split; [reflexivity |]. auto.
Qed.

(** The tempo a preset chooses: 140..144 BPM for the hard style and 126..129
    for any other, when the draw lies in [0, 1); the echo is synchronised to
    it. *)
Theorem regenerate_tempo_range (style_arg : option string) (s : TechnoSynth) (e : Env) :
  0 <= draws e (cursor e) -> draws e (cursor e) < 1 ->
  let s' := fst (regenerate style_arg s e) in
  (is_hard s' = true ->
     (140 <= tempo s' <= 144)%Z /\ delayGain s' = 0.4 /\
     delayTime s' = 60 / inject_Z (tempo s') * 0.75) /\
  (is_hard s' = false ->
     (126 <= tempo s' <= 129)%Z /\ delayGain s' = 0.1 /\
     delayTime s' = 60 / inject_Z (tempo s') * 0.5).
Proof.
  intros H0 H1 s'.
  destruct (regenerate_fields style_arg s e) as (Hst & Ht & _ & Hg & Hd & _).
  fold s' in Hst, Ht, Hg, Hd.
  assert (Hh : is_hard s' = is_hard match truthy style_arg with
                                    | Some st => with_style st s
                                    | None => s
                                    end)
    by (unfold is_hard; rewrite Hst; reflexivity).
  rewrite <- Hh in Ht, Hg, Hd.
  pose proof (floor_of_unit_draw _ 5 eq_refl H0 H1) as F5.
  pose proof (floor_of_unit_draw _ 4 eq_refl H0 H1) as F4.
  change (inject_Z 5) with 5 in F5. change (inject_Z 4) with 4 in F4.
  split; intros E; rewrite E in *; repeat split; try assumption; lia.
Qed.

Lemma regenerate_tempo_range_witness :
  (140 <= tempo (fst (regenerate (Some hard) (declared minimal) (env0 (fun _ => 0.5%Q))))
   <= 144)%Z.
Proof.
  apply (regenerate_tempo_range (Some hard) (declared minimal) (env0 (fun _ => 0.5))).
  - cbn. lra.
  - cbn. lra.
  - vm_compute. reflexivity.
Defined.

Lemma regenerate_pattern_length (style_arg : option string) (s : TechnoSynth) (e : Env) :
  length (bassPattern (fst (regenerate style_arg s e))) = 64%nat.
Proof.
  destruct (regenerate_fields style_arg s e) as (_ & _ & Hp & _).
  cbv zeta in Hp. rewrite Hp.
  destruct (is_hard _).
  - refine (proj1 (Forall2_seq_nth (fun _ _ => True) 64 _ _)).
    apply (map_steps_entries hard_step (fun _ => True) (fun _ _ => True)); auto.
  - refine (proj1 (Forall2_seq_nth (fun _ _ => True) 64 _ _)).
    apply (map_steps_entries minimal_step (fun _ => True) (fun _ _ => True)); auto.
Qed.

(** Regenerating always installs a pattern of exactly 64 steps, and touches
    neither the transport (playing flag, step index, next note time) nor the
    pending timer: a playing sequencer keeps playing from where it is. *)
Theorem regenerate_keeps_transport (style_arg : option string) (s : TechnoSynth) (e : Env) :
  let s' := fst (regenerate style_arg s e) in
  length (bassPattern s') = 64%nat /\
  isPlaying s' = isPlaying s /\ current16thNote s' = current16thNote s /\
  nextNoteTime s' = nextNoteTime s /\ timerID s' = timerID s.
Proof.
  intros s'.
  destruct (regenerate_fields style_arg s e) as (_ & _ & _ & _ & _ & F).
  split; [apply regenerate_pattern_length | exact F].
Qed.

Lemma pattern_at_Some (s : TechnoSynth) (i : nat) :
  (i < length (bassPattern s))%nat ->
  exists x, nth_error (bassPattern s) i = Some x /\ pattern_at s i = x.
Proof.
  intros H. unfold pattern_at.
  destruct (nth_error (bassPattern s) i) as [x |] eqn:E.
  - exists x. split; reflexivity.
  - apply nth_error_None in E. lia.
Qed.

Lemma regenerate_hard_entries (style_arg : option string) (s : TechnoSynth) (e : Env) :
  is_hard (fst (regenerate style_arg s e)) = true ->
  forall i, (i < 64)%nat ->
  hard_entry i (pattern_at (fst (regenerate style_arg s e)) i).
Proof.
  intros Hh i Hi.
  destruct (regenerate_fields style_arg s e) as (Hst & _ & Hp & _).
  pose proof (regenerate_pattern_length style_arg s e) as Hlen.
  cbv zeta in *.
  destruct (pattern_at_Some (fst (regenerate style_arg s e)) i) as (x & Hx & ->);
    [rewrite Hlen; exact Hi |].
  assert (E : is_hard match truthy style_arg with
                      | Some st => with_style st s
                      | None => s
                      end = true)
    by (unfold is_hard in *; rewrite <- Hst; exact Hh).
  rewrite E in Hp. rewrite Hp in Hx.
  destruct (map_steps_entries hard_step (fun _ => True) hard_entry
              (fun i e _ => conj (hard_step_entry i e) I) (snd (random e)) I) as [F _].
  exact (proj2 (Forall2_seq_nth _ _ _ F) i x Hx).
Qed.

(** The hard pattern, for every sequence of draws: each of the 64 steps
    holds 0, 45 or 90 Hz; the steps of the kick (0, 4, 8, 12 of a bar) hold
    0, so the rolling bass never lands on a kick; 90 Hz occurs only on steps
    13 to 15 of a bar. *)
Theorem hard_pattern_entries (style_arg : option string) (s : TechnoSynth) (e : Env) :
  is_hard (fst (regenerate style_arg s e)) = true ->
  forall i, (i < 64)%nat ->
  hard_entry i (pattern_at (fst (regenerate style_arg s e)) i).
Proof.
  intros Hh i Hi.
  pose proof (regenerate_pattern_length style_arg s e) as Hlen.
  destruct (pattern_at_Some (fst (regenerate style_arg s e)) i) as (x & Hx & E);
    [rewrite Hlen; exact Hi |].
  destruct (regenerate_fields style_arg s e) as (Hst & _ & Hp & _).
  cbv zeta in Hst, Hp.
  assert (Hs0 : is_hard match truthy style_arg with
                        | Some st => with_style st s
                        | None => s
                        end = true)
    by (unfold is_hard in *; rewrite <- Hst; exact Hh).
  rewrite Hs0 in Hp. rewrite Hp in Hx. rewrite E.
  destruct (map_steps_entries hard_step (fun _ => True) hard_entry
              (fun i e _ => conj (hard_step_entry i e) I) (snd (random e)) I) as [F _].
  exact (proj2 (Forall2_seq_nth _ _ _ F) i x Hx).
Qed.

Lemma hard_pattern_entries_witness :
  hard_entry 4 (pattern_at (fst (regenerate (Some hard) (declared minimal)
                                    (env0 (fun _ => 0.5)))) 4).
Proof.
  apply (hard_pattern_entries (Some hard) (declared minimal) (env0 (fun _ => 0.5))).
  - vm_compute. reflexivity.
  - apply Nat.ltb_lt. reflexivity.
Defined.

(** The minimal pattern, when every draw lies in [0, 1): each of the 64
    steps holds 0, 55 or 82.5 Hz, never a non-number. *)
Theorem minimal_pattern_entries (style_arg : option string) (s : TechnoSynth) (e : Env) :
  unit_draws e ->
  is_hard (fst (regenerate style_arg s e)) = false ->
  forall i, (i < 64)%nat ->
  minimal_entry (pattern_at (fst (regenerate style_arg s e)) i).
Proof.
  intros U Hh i Hi.
  destruct (regenerate_fields style_arg s e) as (Hst & _ & Hp & _).
  pose proof (regenerate_pattern_length style_arg s e) as Hlen.
  cbv zeta in *.
  destruct (pattern_at_Some (fst (regenerate style_arg s e)) i) as (x & Hx & ->);
    [rewrite Hlen; exact Hi |].
  assert (E : is_hard match truthy style_arg with
                      | Some st => with_style st s
                      | None => s
                      end = false)
    by (unfold is_hard in *; rewrite <- Hst; exact Hh).
  rewrite E in Hp. rewrite Hp in Hx.
  destruct (map_steps_entries minimal_step unit_draws (fun _ => minimal_entry)
              (fun i e He => minimal_step_entry i e He) (snd (random e))
              (unit_draws_random e U)) as [F _].
  exact (proj2 (Forall2_seq_nth _ _ _ F) i x Hx).
Qed.

Lemma minimal_pattern_entries_witness :
  minimal_entry (pattern_at (fst (regenerate (Some minimal) (declared hard)
                                       (env0 (fun _ => 0.5)))) 2).
Proof.
  apply (minimal_pattern_entries (Some minimal) (declared hard) (env0 (fun _ => 0.5))).
  - intros n. cbn. lra.
  - vm_compute. reflexivity.
  - apply Nat.ltb_lt. reflexivity.
Defined.

(** ** The voices of one step *)

(** Of "off-beat", "odd" and "quarter" exactly one holds of a step. *)
Lemma hat_conditions (k : nat) :
  ((k mod 4 =? 2)%nat = true /\ (k mod 2 =? 0)%nat = true /\ (k mod 4 =? 0)%nat = false) \/
  ((k mod 4 =? 2)%nat = false /\ (k mod 2 =? 0)%nat = false /\ (k mod 4 =? 0)%nat = false) \/
  ((k mod 4 =? 2)%nat = false /\ (k mod 2 =? 0)%nat = true /\ (k mod 4 =? 0)%nat = true).
Proof.
  pose proof (Nat.Div0.mod_mul_r k 2 2) as M. change (2 * 2)%nat with 4%nat in M.
  pose proof (Nat.mod_upper_bound k 2 ltac:(discriminate)) as B2.
  pose proof (Nat.mod_upper_bound (k / 2) 2 ltac:(discriminate)) as B1.
  destruct (k mod 4 =? 2)%nat eqn:E2; destruct (k mod 2 =? 0)%nat eqn:E1;
    destruct (k mod 4 =? 0)%nat eqn:E0;
    rewrite ?Nat.eqb_eq, ?Nat.eqb_neq in *; try lia; tauto.
Qed.

Lemma fired_kick (s : TechnoSynth) (k : nat) (time : Q) (e : Env) :
  fired (schedule_kick s k time e) =
  (if (k mod 4 =? 0)%nat
   then [if is_hard s then RumbleKick time else Kick time] else []) ++ fired e.
Proof.
  unfold schedule_kick. destruct (k mod 4 =? 0)%nat; [| reflexivity].
  destruct (is_hard s); reflexivity.
Qed.

Lemma fired_hats (s : TechnoSynth) (k : nat) (time : Q) (e : Env) :
  fired (schedule_hats s k time e) =
  hats_due (is_hard s) k time (draws e (cursor e)) ++ fired e.
Proof.
  unfold schedule_hats, hats_due, playHiHat, random.
  destruct (is_hard s) eqn:Hs.
  - destruct (hat_conditions k) as [(-> & -> & ->) | [(-> & -> & ->) | (-> & -> & ->)]];
      cbn [negb]; try reflexivity.
    cbn [draws cursor]. destruct (Qltb 0.5 _); reflexivity.
  - destruct (k mod 4 =? 2)%nat; [reflexivity |].
    cbn [draws cursor]. destruct (Qltb 0.7 _); reflexivity.
Qed.

Lemma fired_bass (s : TechnoSynth) (i : nat) (time : Q) (e : Env) :
  fired (schedule_bass s i time e) = bass_due s i time ++ fired e.
Proof.
  unfold schedule_bass, bass_due. destruct (gtb _ _); reflexivity.
Qed.

Lemma fired_perc (s : TechnoSynth) (time : Q) (e : Env) :
  exists new,
    fired (schedule_perc s time e) = new ++ fired e /\
    (length new <= 1)%nat /\
    Forall (fun v => voice_time v = time /\ is_hat v = false /\
                     is_bass_note v = false /\ is_kick v = false) new.
Proof.
  unfold schedule_perc, random, playIndustrialPerc, playClick.
  destruct (is_hard s); destruct (Qltb _ _);
    solve [ exists []; repeat split; auto
          | eexists [_]; split; [reflexivity |]; split; [auto |];
            repeat constructor ].
Qed.

(** All the voices of one call of [scheduleNote], newest first. *)
Lemma fired_scheduleNote (s : TechnoSynth) (i : nat) (time : Q) (e : Env) :
  exists perc,
    fired (scheduleNote s i time e) =
      perc ++ bass_due s i time
           ++ hats_due (is_hard s) (i mod 16) time
                (draws e (cursor (schedule_kick s (i mod 16) time e)))
           ++ (if quarter i then [if is_hard s then RumbleKick time else Kick time]
               else [])
           ++ fired e /\
    (length perc <= 1)%nat /\
    Forall (fun v => voice_time v = time /\ is_hat v = false /\
                     is_bass_note v = false /\ is_kick v = false) perc.
Proof.
  unfold scheduleNote.
  destruct (fired_perc s time
              (schedule_bass s i time
                 (schedule_hats s (i mod 16) time
                    (schedule_kick s (i mod 16) time e)))) as (perc & Hp & Hl & Hf).
  exists perc. split; [| split; assumption].
  rewrite Hp, fired_bass, fired_hats, fired_kick, quarter_spec.
  assert (D : draws (schedule_kick s (i mod 16) time e) = draws e).
  { unfold schedule_kick, playRumbleKick, playKick.
    destruct (_ =? 0)%nat; [destruct (is_hard s) |]; reflexivity. }
  rewrite D. reflexivity.
Qed.

Lemma filter_none {A : Type} (f : A -> bool) (l : list A) :
  Forall (fun v => f v = false) l -> filter f l = [].
Proof.
  induction 1 as [| v l Hv _ IH]; [reflexivity |]. cbn. rewrite Hv. exact IH.
Qed.

Lemma hats_due_shape (h : bool) (k : nat) (time x : Q) :
  (length (hats_due h k time x) <= 1)%nat /\
  Forall (fun v => voice_time v = time /\ is_hat v = true /\
                   is_bass_note v = false /\ is_kick v = false)
         (hats_due h k time x).
Proof.
  unfold hats_due.
  repeat match goal with
         | |- context [if ?c then _ else _] => destruct c
         end; split; cbn; auto; repeat constructor.
Qed.

Lemma bass_due_shape (s : TechnoSynth) (i : nat) (time : Q) :
  (length (bass_due s i time) <= 1)%nat /\
  Forall (fun v => voice_time v = time /\ is_hat v = false /\
                   is_bass_note v = true /\ is_kick v = false)
         (bass_due s i time).
Proof.
  unfold bass_due. destruct (gtb _ _); split; cbn; auto; repeat constructor.
Qed.

Lemma filter_all {A : Type} (f : A -> bool) (l : list A) :
  Forall (fun v => f v = true) l -> filter f l = l.
Proof.
  induction 1 as [| v l Hv _ IH]; [reflexivity |]. cbn. rewrite Hv, IH. reflexivity.
Qed.

Lemma hats_scheduleNote (s : TechnoSynth) (i : nat) (time : Q) (e : Env) :
  filter is_hat (fired (scheduleNote s i time e)) =
  hats_due (is_hard s) (i mod 16) time
    (draws e (cursor (schedule_kick s (i mod 16) time e)))
  ++ filter is_hat (fired e).
Proof.
  destruct (fired_scheduleNote s i time e) as (perc & -> & _ & Hperc).
  destruct (hats_due_shape (is_hard s) (i mod 16) time
              (draws e (cursor (schedule_kick s (i mod 16) time e)))) as [_ Hh].
  destruct (bass_due_shape s i time) as [_ Hb].
  rewrite !filter_app.
  rewrite (filter_none is_hat perc)
    by (eapply Forall_impl; [| exact Hperc]; cbn; tauto).
  rewrite (filter_none is_hat (bass_due s i time))
    by (eapply Forall_impl; [| exact Hb]; cbn; tauto).
  rewrite (filter_all is_hat (hats_due _ _ _ _))
    by (eapply Forall_impl; [| exact Hh]; cbn; tauto).
  destruct (quarter i); [destruct (is_hard s) |]; reflexivity.
Qed.

(** The hats of a step.  A step fires at most one hat.  In the hard style
    an odd step fires exactly the closed hat, an off-beat step (2, 6, 10, 14
    of a bar) exactly the open hat, a quarter step at most the quiet ride; in
    any other style an off-beat step fires exactly the open hat and every
    other step at most one closed hat. *)
Theorem hats_of_a_step (s : TechnoSynth) (i : nat) (time : Q) (e : Env) :
  exists hats,
    filter is_hat (fired (scheduleNote s i time e)) = hats ++ filter is_hat (fired e) /\
    (length hats <= 1)%nat /\
    (is_hard s = true ->
       (((i mod 16) mod 4 = 2)%nat -> hats = [HiHat time true 0.3 8000]) /\
       (((i mod 16) mod 2 = 1)%nat -> hats = [HiHat time false 0.1 8000]) /\
       (((i mod 16) mod 4 = 0)%nat ->
          hats = [] \/ hats = [HiHat time true 0.1 8000])) /\
    (is_hard s = false ->
       (((i mod 16) mod 4 = 2)%nat -> hats = [HiHat time true 0.3 7000]) /\
       (((i mod 16) mod 4 <> 2)%nat ->
          hats = [] \/ hats = [HiHat time false 0.1 7000])).
Proof.
  eexists. split; [apply hats_scheduleNote |].
  split; [apply hats_due_shape |].
  set (k := (i mod 16)%nat). unfold hats_due.
  set (x := draws e _). clearbody x.
  pose proof (Nat.Div0.mod_mul_r k 2 2) as M. change (2 * 2)%nat with 4%nat in M.
  pose proof (Nat.mod_upper_bound (k / 2) 2 ltac:(discriminate)) as B1.
  split; intros ->.
  - destruct (hat_conditions k) as [(E2 & E1 & E0) | [(E2 & E1 & E0) | (E2 & E1 & E0)]];
      rewrite E2, ?E1; cbn [negb];
      rewrite ?Nat.eqb_eq, ?Nat.eqb_neq in *;
      (split; [| split]); intros H; try lia; try reflexivity.
    destruct (Qltb 0.5 x); [right | left]; reflexivity.
  - destruct (k mod 4 =? 2)%nat eqn:E2;
      rewrite ?Nat.eqb_eq, ?Nat.eqb_neq in *;
      split; intros H; try lia; try reflexivity.
    destruct (Qltb 0.7 x); [right | left]; reflexivity.
Qed.

(** The bass of a step: one bass note, at the step's time and with the
    pattern's frequency, exactly when the pattern holds a number above 0 at
    that step; a step past the end of the pattern fires none. *)
Theorem bass_of_a_step (s : TechnoSynth) (i : nat) (time : Q) (e : Env) :
  (gtb (pattern_at s i) (Num 0) = true ->
     filter is_bass_note (fired (scheduleNote s i time e)) =
       BassNote time (pattern_at s i) (is_hard s) :: filter is_bass_note (fired e)) /\
  (gtb (pattern_at s i) (Num 0) = false ->
     filter is_bass_note (fired (scheduleNote s i time e)) =
       filter is_bass_note (fired e)) /\
  ((length (bassPattern s) <= i)%nat ->
     filter is_bass_note (fired (scheduleNote s i time e)) =
       filter is_bass_note (fired e)).
Proof.
  assert (G : filter is_bass_note (fired (scheduleNote s i time e)) =
              bass_due s i time ++ filter is_bass_note (fired e)).
  { destruct (fired_scheduleNote s i time e) as (perc & -> & _ & Hperc).
    destruct (hats_due_shape (is_hard s) (i mod 16) time
                (draws e (cursor (schedule_kick s (i mod 16) time e)))) as [_ Hh].
    destruct (bass_due_shape s i time) as [_ Hb].
    rewrite !filter_app.
    rewrite (filter_none is_bass_note perc)
      by (eapply Forall_impl; [| exact Hperc]; cbn; tauto).
    rewrite (filter_none is_bass_note (hats_due _ _ _ _))
      by (eapply Forall_impl; [| exact Hh]; cbn; tauto).
    rewrite (filter_all is_bass_note (bass_due s i time))
      by (eapply Forall_impl; [| exact Hb]; cbn; tauto).
    destruct (quarter i); [destruct (is_hard s) |]; reflexivity. }
  rewrite G. unfold bass_due.
  split; [| split].
  - intros ->. reflexivity.
  - intros ->. reflexivity.
  - intros H. unfold pattern_at.
    apply nth_error_None in H. rewrite H. reflexivity.
Qed.

Lemma bass_of_a_step_witness :
  filter is_bass_note (fired (scheduleNote (fst hard_synth) 1 0 (snd hard_synth))) =
  BassNote 0 (pattern_at (fst hard_synth) 1) (is_hard (fst hard_synth))
    :: filter is_bass_note (fired (snd hard_synth)).
Proof.
  refine (proj1 (bass_of_a_step (fst hard_synth) 1 0 (snd hard_synth)) _).
  vm_compute. reflexivity.
Defined.

Lemma hats_of_a_step_witness :
  exists hats,
    filter is_hat (fired (scheduleNote (fst hard_synth) 3 0 (snd hard_synth))) =
      hats ++ filter is_hat (fired (snd hard_synth)) /\
    hats = [HiHat 0 false 0.1 8000].
Proof.
  destruct (hats_of_a_step (fst hard_synth) 3 0 (snd hard_synth))
    as (hats & H & _ & Hh & _).
  exists hats. split; [exact H |].
  apply Hh; [vm_compute; reflexivity | reflexivity].
Defined.

Lemma fired_scheduleNote_times (s : TechnoSynth) (i : nat) (time : Q) (e : Env) :
  exists new,
    fired (scheduleNote s i time e) = new ++ fired e /\
    Forall (fun v => voice_time v = time) new.
Proof.
  destruct (fired_scheduleNote s i time e) as (perc & -> & Hl & Hperc).
  destruct (hats_due_shape (is_hard s) (i mod 16) time
              (draws e (cursor (schedule_kick s (i mod 16) time e)))) as [Lh Hh].
  destruct (bass_due_shape s i time) as [Lb Hb].
  exists (perc ++ bass_due s i time
               ++ hats_due (is_hard s) (i mod 16) time
                    (draws e (cursor (schedule_kick s (i mod 16) time e)))
               ++ (if quarter i then [if is_hard s then RumbleKick time else Kick time]
                   else [])).
  split; [rewrite <- !app_assoc; reflexivity |].
  apply Forall_app. split.
  { eapply Forall_impl; [| exact Hperc]; cbn; tauto. }
  apply Forall_app. split.
  { eapply Forall_impl; [| exact Hb]; cbn; tauto. }
  apply Forall_app. split.
  { eapply Forall_impl; [| exact Hh]; cbn; tauto. }
  destruct (quarter i); [destruct (is_hard s) |]; repeat constructor.
Qed.

(** A step fires at most four voices (kick, hat, bass, percussion), each
    stamped with the time the step was given. *)
Theorem voices_of_a_step (s : TechnoSynth) (i : nat) (time : Q) (e : Env) :
  exists new,
    fired (scheduleNote s i time e) = new ++ fired e /\
    (length new <= 4)%nat /\
    Forall (fun v => voice_time v = time) new.
Proof.
  destruct (fired_scheduleNote s i time e) as (perc & -> & Hl & Hperc).
  destruct (hats_due_shape (is_hard s) (i mod 16) time
              (draws e (cursor (schedule_kick s (i mod 16) time e)))) as [Lh Hh].
  destruct (bass_due_shape s i time) as [Lb Hb].
  exists (perc ++ bass_due s i time
               ++ hats_due (is_hard s) (i mod 16) time
                    (draws e (cursor (schedule_kick s (i mod 16) time e)))
               ++ (if quarter i then [if is_hard s then RumbleKick time else Kick time]
                   else [])).
  split; [rewrite <- !app_assoc; reflexivity |].
  split.
  - rewrite !length_app. destruct (quarter i); cbn [length]; lia.
  - apply Forall_app. split.
    { eapply Forall_impl; [| exact Hperc]; cbn; tauto. }
    apply Forall_app. split.
    { eapply Forall_impl; [| exact Hb]; cbn; tauto. }
    apply Forall_app. split.
    { eapply Forall_impl; [| exact Hh]; cbn; tauto. }
    destruct (quarter i); [destruct (is_hard s) |]; repeat constructor.
Qed.

(** ** Pattern and kick together *)

(** After regenerating into the hard style, a step of the pattern that fires
    the kick fires no bass note, for every sequence of draws: the rolling
    bass and the kick never coincide. *)
Theorem hard_kick_steps_have_no_bass
        (style_arg : option string) (s : TechnoSynth) (e e' : Env) (i : nat) (time : Q) :
  is_hard (fst (regenerate style_arg s e)) = true ->
  (i < 64)%nat -> quarter i = true ->
  filter is_bass_note (fired (scheduleNote (fst (regenerate style_arg s e)) i time e')) =
  filter is_bass_note (fired e').
Proof.
  intros Hh Hi Hq.
  destruct (regenerate_hard_entries style_arg s e Hh i Hi) as (_ & H0 & _).
  rewrite <- quarter_spec in Hq. apply Nat.eqb_eq in Hq.
  destruct (fired_scheduleNote (fst (regenerate style_arg s e)) i time e')
    as (perc & -> & _ & Hperc).
  destruct (hats_due_shape (is_hard (fst (regenerate style_arg s e))) (i mod 16) time
              (draws e' (cursor (schedule_kick (fst (regenerate style_arg s e))
                                   (i mod 16) time e')))) as [_ Hhats].
  rewrite !filter_app.
  rewrite (filter_none is_bass_note perc)
    by (eapply Forall_impl; [| exact Hperc]; cbn; tauto).
  rewrite (filter_none is_bass_note (hats_due _ _ _ _))
    by (eapply Forall_impl; [| exact Hhats]; cbn; tauto).
  unfold bass_due. rewrite (H0 Hq). cbn [gtb Qltb Qle_bool].
  destruct (quarter i); [destruct (is_hard _) |]; reflexivity.
Qed.

Lemma hard_kick_steps_have_no_bass_witness :
  filter is_bass_note (fired (scheduleNote (fst hard_synth) 4 0 (snd hard_synth))) =
  filter is_bass_note (fired (snd hard_synth)).
Proof.
  apply (hard_kick_steps_have_no_bass (Some hard) (declared hard) (env0 (fun _ => 0.5))
           (snd hard_synth) 4 0).
  - vm_compute. reflexivity.
  - apply Nat.ltb_lt. reflexivity.
  - reflexivity.
Defined.

(** ** The clock of the sequencer *)

Lemma nextNoteTime_steps (n : nat) (w : TechnoSynth * Env) :
  nextNoteTime (fst (Nat.iter n step w)) ==
  nextNoteTime (fst w) + inject_Z (Z.of_nat n) * sixteenth (fst w) /\
  tempo (fst (Nat.iter n step w)) = tempo (fst w).
Proof.
  induction n as [| n [IH IHt]].
  - change (Nat.iter 0 step w) with w. change (inject_Z (Z.of_nat 0)) with 0.
    split; [lra | reflexivity].
  - change (Nat.iter (S n) step w) with (step (Nat.iter n step w)).
    destruct (step_fields (Nat.iter n step w)) as (Ht & _ & _ & _ & _ & Hn).
    split; [| congruence].
    rewrite Hn, IH, Qnat_succ.
    assert (E : sixteenth (fst (Nat.iter n step w)) = sixteenth (fst w))
      by (unfold sixteenth; rewrite IHt; reflexivity).
    rewrite E. lra.
Qed.

(** Stepping keeps the step index in [0, 64) and, for a positive tempo,
    advances the clock by one sixteenth note, 15/tempo seconds, per step:
    after 64 steps the index is back where it started and the clock is 64
    sixteenths on. *)
Theorem steps_wrap_and_advance (n : nat) (w : TechnoSynth * Env) :
  (current16thNote (fst w) < 64)%nat ->
  (current16thNote (fst (Nat.iter n step w)) < 64)%nat /\
  current16thNote (fst (Nat.iter (n + 64) step w)) =
    current16thNote (fst (Nat.iter n step w)) /\
  ((0 < tempo (fst w))%Z ->
   nextNoteTime (fst (Nat.iter n step w)) ==
     nextNoteTime (fst w)
     + inject_Z (Z.of_nat n) * (0.25 * (60.0 / inject_Z (tempo (fst w))))).
Proof.
  intros H. rewrite !current16thNote_steps by exact H.
  split; [apply Nat.mod_upper_bound; discriminate |].
  split.
  - rewrite Nat.add_assoc.
    rewrite <- (Nat.Div0.add_mod_idemp_r _ 64 64). rewrite Nat.Div0.mod_same.
    rewrite Nat.add_0_r. reflexivity.
  - intros _. apply nextNoteTime_steps.
Qed.

Lemma steps_wrap_and_advance_witness :
  current16thNote (fst (Nat.iter (3 + 64) step hard_synth)) =
  current16thNote (fst (Nat.iter 3 step hard_synth)).
Proof.
  apply (steps_wrap_and_advance 3 hard_synth).
  apply Nat.ltb_lt. vm_compute. reflexivity.
Defined.

(** ** The look-ahead window *)

Lemma fired_step (w : TechnoSynth * Env) :
  exists new,
    fired (snd (step w)) = new ++ fired (snd w) /\
    Forall (fun v => voice_time v = nextNoteTime (fst w)) new.
Proof.
  destruct w as [s e]. cbn [step fst snd].
  destruct (fired_scheduleNote_times s (current16thNote s) (nextNoteTime s) e) as (new & Hn & Hf).
  exists new. split; assumption.
Qed.

Lemma look_ahead_window (fuel : nat) (now : Q) :
  forall w,
  exists new,
    fired (snd (look_ahead fuel now w)) = new ++ fired (snd w) /\
    Forall (fun v => voice_time v < now + scheduleAheadTime (fst w)) new /\
    (0 <= sixteenth (fst w) ->
     Forall (fun v => nextNoteTime (fst w) <= voice_time v) new).
Proof.
  induction fuel as [| fuel IH]; intros w.
  - exists []. repeat split; constructor.
  - cbn [look_ahead].
    destruct (Qltb _ _) eqn:E; [| exists []; repeat split; constructor].
    apply Qltb_lt in E.
    destruct (fired_step w) as (new1 & H1 & F1).
    destruct (IH (step w)) as (new2 & H2 & F2 & G2).
    destruct (step_fields w) as (Ht & Ha & _ & _ & _ & Hn).
    exists (new2 ++ new1). split; [rewrite H2, H1, app_assoc; reflexivity |].
    split.
    + apply Forall_app. split.
      * rewrite Ha in F2. exact F2.
      * eapply Forall_impl; [| exact F1]. cbn. intros v ->. exact E.
    + intros Hd. apply Forall_app. split.
      * assert (Hs : sixteenth (fst (step w)) = sixteenth (fst w))
          by (unfold sixteenth; rewrite Ht; reflexivity).
        rewrite Hs, Hn in G2.
        eapply Forall_impl; [| exact (G2 Hd)]. cbn. intros v Hv. lra.
      * eapply Forall_impl; [| exact F1]. cbn. intros v ->. lra.
Qed.

(** One run of the scheduler, at a positive tempo, only hands over voices
    inside the look-ahead window: each new voice is stamped earlier than
    [currentTime + scheduleAheadTime] and no earlier than the [nextNoteTime]
    the run started from. *)
Theorem scheduler_stays_in_window (currentTime : Q) (w : TechnoSynth * Env) :
  (0 < tempo (fst w))%Z ->
  exists new,
    fired (snd (scheduler currentTime w)) = new ++ fired (snd w) /\
    Forall (fun v => nextNoteTime (fst w) <= voice_time v /\
                     voice_time v < currentTime + scheduleAheadTime (fst w)) new.
Proof.
  intros Ht.
  destruct (look_ahead_window (iterations currentTime (fst w)) currentTime w)
    as (new & H & F & G).
  exists new. unfold scheduler.
  destruct (look_ahead _ _ _) as [s e]. cbn [snd] in H.
  split.
  - destruct (isPlaying s); cbn [setTimeout snd fired]; exact H.
  - specialize (G (Qlt_le_weak _ _ (sixteenth_pos _ Ht))).
    rewrite Forall_forall in *. intros v Hv. split; [apply G | apply F]; exact Hv.
Qed.

Lemma scheduler_stays_in_window_witness :
  exists new,
    fired (snd (scheduler 10 hard_synth)) = new ++ fired (snd hard_synth) /\
    Forall (fun v => nextNoteTime (fst hard_synth) <= voice_time v /\
                     voice_time v < 10 + scheduleAheadTime (fst hard_synth)) new.
Proof.
  apply (scheduler_stays_in_window 10 hard_synth). vm_compute. reflexivity.
Defined.

(** ** Starting and stopping *)

Lemma look_ahead_done (fuel : nat) (now : Q) (w : TechnoSynth * Env) :
  now + scheduleAheadTime (fst w) <= nextNoteTime (fst w) ->
  look_ahead fuel now w = w.
Proof.
  intros H. destruct fuel as [| fuel]; [reflexivity |].
  cbn [look_ahead]. apply Qltb_ge in H. rewrite H. reflexivity.
Qed.

Lemma nextTimer_scheduleNote (s : TechnoSynth) (stepIndex : nat) (time : Q) (e : Env) :
  nextTimer (scheduleNote s stepIndex time e) = nextTimer e.
Proof.
  assert (K : forall i t e, nextTimer (schedule_kick s i t e) = nextTimer e)
    by (intros; unfold schedule_kick, playRumbleKick, playKick; by_cases).
  assert (H : forall i t e, nextTimer (schedule_hats s i t e) = nextTimer e)
    by (intros; unfold schedule_hats, playHiHat, random; by_cases).
  assert (B : forall i t e, nextTimer (schedule_bass s i t e) = nextTimer e)
    by (intros; unfold schedule_bass, playBass; by_cases).
  assert (P : forall t e, nextTimer (schedule_perc s t e) = nextTimer e)
    by (intros; unfold schedule_perc, playIndustrialPerc, playClick, random; by_cases).
  unfold scheduleNote. rewrite P, B, H, K. reflexivity.
Qed.

Lemma nextTimer_look_ahead (fuel : nat) (now : Q) :
  forall w, nextTimer (snd (look_ahead fuel now w)) = nextTimer (snd w).
Proof.
  induction fuel as [| fuel IH]; intros w; [reflexivity |].
  cbn [look_ahead]. destruct (Qltb _ _); [| reflexivity].
  rewrite IH. destruct w as [s e]. apply nextTimer_scheduleNote.
Qed.

(** [play] from the idle state, at a tempo below 300 BPM and with the
    look-ahead of 0.1 s the class declares, schedules exactly the first step
    before it returns: the kick of step 0 at [currentTime + 0.05], the step
    index left at 1 and the next note one sixteenth later. *)
Theorem play_schedules_the_downbeat (currentTime : Q) (w : TechnoSynth * Env) :
  isPlaying (fst w) = false ->
  (0 < tempo (fst w) < 300)%Z ->
  scheduleAheadTime (fst w) = 0.1 ->
  current16thNote (fst (play currentTime w)) = 1%nat /\
  nextNoteTime (fst (play currentTime w)) =
    currentTime + 0.05 + 0.25 * (60.0 / inject_Z (tempo (fst w))) /\
  kick_voices (snd (play currentTime w)) =
    (if is_hard (fst w) then RumbleKick (currentTime + 0.05)
     else Kick (currentTime + 0.05)) :: kick_voices (snd w).
Proof.
  destruct w as [s e]. cbn [fst snd]. intros P [T0 T1] A.
  set (e0 := if suspended e then resume e else e).
  set (w0 := (restarted currentTime s, e0)).
  assert (S16 : 0.05 <= sixteenth s).
  { unfold sixteenth.
    assert (0 < inject_Z (tempo s))
      by (change 0 with (inject_Z 0); rewrite <- Zlt_Qlt; exact T0).
    assert (inject_Z (tempo s) <= 300)
      by (change 300 with (inject_Z 300); rewrite <- Zle_Qle; lia).
    assert (0.2 <= 60.0 / inject_Z (tempo s)) by (apply Qle_shift_div_l; lra).
    lra. }
  assert (L : look_ahead (iterations currentTime (fst w0)) currentTime w0 = step w0).
  { unfold iterations. cbn [look_ahead].
    assert (C : Qltb (nextNoteTime (fst w0)) (currentTime + scheduleAheadTime (fst w0))
                = true).
    { apply Qltb_lt. subst w0. cbn [fst restarted nextNoteTime scheduleAheadTime].
      rewrite A. lra. }
    rewrite C. apply look_ahead_done.
    destruct (step_fields w0) as (_ & -> & _ & _ & _ & ->).
    subst w0. cbn [fst restarted nextNoteTime scheduleAheadTime].
    rewrite A. change (sixteenth (restarted currentTime s)) with (sixteenth s). lra. }
  assert (E : play currentTime (s, e) = scheduler currentTime w0)
    by (unfold play; rewrite P; reflexivity).
  rewrite E. unfold scheduler. rewrite L.
  assert (K : kick_voices (snd (step w0)) =
              (if is_hard s then RumbleKick (currentTime + 0.05)
               else Kick (currentTime + 0.05)) :: kick_voices e).
  { rewrite kick_voices_step. subst w0 e0. cbn [fst snd restarted current16thNote].
    change (quarter 0) with true. cbv iota.
    destruct (suspended e); reflexivity. }
  destruct (step w0) as [s1 e1] eqn:S1.
  assert (F : isPlaying s1 = true /\ current16thNote s1 = 1%nat /\
              nextNoteTime s1 = currentTime + 0.05 + sixteenth s).
  { change s1 with (fst (s1, e1)). rewrite <- S1. subst w0. repeat split. }
  destruct F as (F1 & F2 & F3). cbn [snd] in K.
  rewrite F1. cbn [setTimeout fst snd with_timer current16thNote nextNoteTime].
  split; [exact F2 |]. split; [exact F3 | exact K].
Qed.

Lemma play_schedules_the_downbeat_witness :
  current16thNote (fst (play 10 hard_synth)) = 1%nat.
Proof.
  apply (play_schedules_the_downbeat 10 hard_synth).
  - vm_compute. reflexivity.
  - vm_compute. split; reflexivity.
  - reflexivity.
Defined.

(** [stop] cancels the timeout that [play] left pending: at a positive
    tempo, and when timer ids are positive and fresh, as the browser hands
    them out, [play] followed by [stop] leaves the pending timeouts exactly
    as they were, so no further scheduler run is due. *)
Theorem stop_cancels_the_timeout (currentTime : Q) (w : TechnoSynth * Env) :
  isPlaying (fst w) = false ->
  (0 < tempo (fst w))%Z ->
  (0 < nextTimer (snd w))%nat ->
  ~ In (nextTimer (snd w)) (pending (snd w)) ->
  pending (snd (stop (play currentTime w))) = pending (snd w) /\
  isPlaying (fst (stop (play currentTime w))) = false.
Proof.
  destruct w as [s e]. cbn [fst snd]. intros P _ Hpos Hfresh.
  set (e0 := if suspended e then resume e else e).
  assert (E0 : pending e0 = pending e /\ nextTimer e0 = nextTimer e)
    by (subst e0; destruct (suspended e); split; reflexivity).
  destruct E0 as [Ep En].
  assert (E : play currentTime (s, e) = scheduler currentTime (restarted currentTime s, e0))
    by (unfold play; rewrite P; reflexivity).
  rewrite E. unfold scheduler.
  destruct (look_ahead_fields (iterations currentTime (fst (restarted currentTime s, e0)))
              currentTime (restarted currentTime s, e0)) as (_ & Hp & Hq).
  pose proof (nextTimer_look_ahead
                (iterations currentTime (fst (restarted currentTime s, e0)))
                currentTime (restarted currentTime s, e0)) as Hn.
  destruct (look_ahead _ _ _) as [s1 e1]. cbn [fst snd] in *.
  rewrite Hp. cbn [restarted isPlaying setTimeout].
  unfold stop. cbn [with_timer timerID fst snd].
  rewrite Hn, En. destruct (nextTimer e) as [| id] eqn:N; [lia |].
  cbn [fst snd isPlaying clearTimeout pending].
  split; [| reflexivity].
  rewrite Hq, Ep.
  cbn [remove]. destruct (Nat.eq_dec (S id) (S id)) as [_ | C]; [| contradiction].
  apply notin_remove. exact Hfresh.
Qed.

Lemma stop_cancels_the_timeout_witness :
  pending (snd (stop (play 10 hard_synth))) = pending (snd hard_synth).
Proof.
  apply (stop_cancels_the_timeout 10 hard_synth).
  - vm_compute. reflexivity.
  - vm_compute. reflexivity.
  - apply Nat.ltb_lt. vm_compute. reflexivity.
  - vm_compute. exact (fun H => H).
Defined.

(* ------------------------------------------------------------------ *)
(** * Further properties of the analyser *)

(** ** The gain follower *)

Lemma frameMax_fold (data : frame) :
  forall m,
  let r := fold_left (fun m b => if Qltb m (byteQ b) then byteQ b else m) data m in
  m <= r /\
  (forall b, In b data -> byteQ b <= r) /\
  (r = m \/ exists b, In b data /\ r = byteQ b).
Proof.
  induction data as [| b data IH]; intros m; cbn [fold_left].
  - split; [lra |]. split; [intros b [] | left; reflexivity].
  - destruct (Qltb m (byteQ b)) eqn:E;
      [apply Qltb_lt in E | apply Qltb_ge in E].
    + destruct (IH (byteQ b)) as (H1 & H2 & H3). cbv zeta in *.
      split; [lra |]. split.
      * intros c [<- | Hc]; [exact H1 | apply H2, Hc].
      * right. destruct H3 as [-> | (c & Hc & ->)].
        -- exists b. split; [left; reflexivity | reflexivity].
        -- exists c. split; [right; exact Hc | reflexivity].
    + destruct (IH m) as (H1 & H2 & H3). cbv zeta in *.
      split; [exact H1 |]. split.
      * intros c [<- | Hc]; [lra | apply H2, Hc].
      * destruct H3 as [-> | (c & Hc & ->)]; [left; reflexivity |].
        right. exists c. split; [right; exact Hc | reflexivity].
Qed.

(** The scan of [updateAutoGain] finds the maximum of the frame: no bin is
    above it, it lies in [0, 255], it is 0 for an empty frame and otherwise
    the value of one of the bins. *)
Theorem frameMax_is_the_maximum (data : frame) :
  (forall b, In b data -> byteQ b <= frameMax data) /\
  0 <= frameMax data /\ frameMax data <= 255 /\
  (data = [] -> frameMax data = 0) /\
  (data <> [] -> exists b, In b data /\ frameMax data == byteQ b).
Proof.
  destruct (frameMax_fold data 0) as (H1 & H2 & H3). cbv zeta in *.
  fold (frameMax data) in *.
  split; [exact H2 |]. split; [exact H1 |]. split; [| split].
  - destruct H3 as [-> | (b & _ & ->)]; [lra | apply byteQ_range].
  - intros ->. reflexivity.
  - intros Hne. destruct H3 as [E | (b & Hb & ->)].
    + destruct data as [| b data]; [contradiction |].
      exists b. split; [left; reflexivity |].
      pose proof (H2 b (or_introl eq_refl)) as U.
      pose proof (byteQ_range b) as [L _]. rewrite E in *. lra.
    + exists b. split; [exact Hb | reflexivity].
Qed.

Lemma frameMax_is_the_maximum_witness : frameMax loud <= 255.
Proof. apply (frameMax_is_the_maximum loud). Defined.

(** The gain that an update aims at never clips the frame it was computed
    from by more than the release factor: every bin of the frame, times
    [255 / safeMax], is at most 255/0.995; and it is at most 255 when the
    frame raised the envelope. *)
Theorem target_gain_fits_the_frame (data : frame) (r : Refs) (b : byte) :
  In b data ->
  let targetGain := 255.0 / safeMax (maxVolumeRef (updateAutoGain data r)) in
  byteQ b * targetGain <= 255 / 0.995 /\
  (maxVolumeRef r < frameMax data -> byteQ b * targetGain <= 255).
Proof.
  intros Hb targetGain.
  destruct (frameMax_fold data 0) as (_ & H2 & _). cbv zeta in H2.
  fold (frameMax data) in H2. specialize (H2 b Hb).
  pose proof (byteQ_range b) as [B0 B1].
  subst targetGain. rewrite maxVolume_updateAutoGain.
  assert (Hdiv : forall env k, byteQ b <= k * safeMax env ->
                               byteQ b * (255.0 / safeMax env) <= 255 * k).
  { intros env k Hk. pose proof (safeMax_floor env) as S50.
    assert (D : byteQ b * (255.0 / safeMax env) == 255 * (byteQ b / safeMax env))
      by (field; lra).
    rewrite D.
    assert (byteQ b / safeMax env <= k) by (apply Qle_shift_div_r; lra).
    lra. }
  assert (Senv : forall env, env <= safeMax env /\ 50 <= safeMax env).
  { intros env. split; [| apply safeMax_floor].
    unfold safeMax. destruct (Qmax_cases env 50.0) as [[-> ?] | [-> ?]]; lra. }
  assert (E : 255 / 0.995 == 255 * (200 # 199)) by reflexivity.
  destruct (Qltb (maxVolumeRef r) (frameMax data)) eqn:C;
    [apply Qltb_lt in C | apply Qltb_ge in C].
  - destruct (Senv (frameMax data)) as [S1 S2].
    split; [rewrite E; apply Hdiv; lra |].
    intros _. apply Qle_trans with (255 * 1); [apply Hdiv; lra | lra].
  - destruct (Senv (maxVolumeRef r * 0.995)) as [S1 S2].
    split; [rewrite E; apply Hdiv; lra | intros C'; lra].
Qed.

Lemma target_gain_fits_the_frame_witness :
  byteQ xff * (255.0 / safeMax (maxVolumeRef (updateAutoGain loud initial_refs)))
  <= 255 / 0.995.
Proof.
  apply (target_gain_fits_the_frame loud initial_refs xff).
  left. reflexivity.
Defined.

(** ** Band extraction at the edges *)

Lemma high_sum_is_number (data : frame) :
  exists q count,
    for_range 50 (Nat.min (length data) 150)
      (fun i '(s, c) => (add s (data_at data i), S c)) (Num 0, O) = (Num q, count).
Proof.
  destruct (counted_sum_in_range data (Nat.min (length data) 150 - 50) 50 0 0)
    as (q & Hq & _); [lia |].
  exists q, (0 + (Nat.min (length data) 150 - 50))%nat. exact Hq.
Qed.

(** Steady high-frequency content does not register: polled twice in a row
    on the same frame, [getHighEnergy] returns 0 the second time, whatever
    the frame and the state before. *)
Theorem steady_high_is_silent (data : frame) (r : Refs) :
  within 0 0
    (snd (getHighEnergy (Some data) (fst (getHighEnergy (Some data) r)))).
Proof.
  destruct (high_sum_is_number data) as (q & count & E).
  cbv beta iota zeta delta [getHighEnergy getFrequencyData].
  rewrite E. cbv beta iota.
  cbn [fst snd set_history set_high gainRef historyRef high].
  destruct (0 <? count)%nat; js_ops; minmax; lra.
Qed.

(** Without an analyser the extractors degrade to 0: every poll returns 0
    and a whole sequence of such polls leaves the refs untouched. *)
Theorem absent_analyser_gives_zero (ps : list poll) (p : poll) (r : Refs) :
  Forall (fun p => snd p = None) ps -> snd p = None ->
  run_polls ps r = r /\ extract p (run_polls ps r) = (r, Num 0).
Proof.
  intros Hps Hp.
  assert (G : run_polls ps r = r).
  { revert r. induction Hps as [| [b an] ps Ha _ IH]; intros r; [reflexivity |].
    cbn in Ha. subst an. unfold run_polls in *. cbn [fold_left].
    replace (fst (extract (b, None) r)) with r by (destruct b; reflexivity).
    apply IH. }
  rewrite G. split; [reflexivity |].
  destruct p as [b an]. cbn in Hp. subst an. destruct b; reflexivity.
Qed.

Lemma absent_analyser_gives_zero_witness :
  extract (Bass, None) (run_polls [(Mid, None); (High, None)] initial_refs) =
  (initial_refs, Num 0).
Proof.
  apply (absent_analyser_gives_zero [(Mid, None); (High, None)] (Bass, None) initial_refs).
  - repeat constructor.
  - reflexivity.
Defined.

(** ** The estimator's thresholds and clock *)

Lemma decay_threshold_floor (s : BeatState) :
  is_number (threshold s) ->
  exists t, threshold (decay_threshold s) = Num t /\ minThreshold s <= t.
Proof.
  intros H. destruct (threshold s) as [| t0] eqn:T; [contradiction |].
  unfold decay_threshold. cbn [set_threshold threshold minThreshold].
  rewrite T. cbn [mul lift2 ltb gtb].
  destruct (Qltb (t0 * 0.95) (minThreshold s)) eqn:E2; cbn [threshold set_threshold].
  - eexists. split; [reflexivity | lra].
  - eexists. split; [reflexivity |]. apply Qltb_ge in E2. exact E2.
Qed.

(** With a numeric threshold and a non-negative floor, a call leaves the
    threshold a number at or above the floor, keeps the floor, and never
    moves [lastBeatTime] backwards, whatever energy and clock reading it is
    given. *)
Theorem estimator_keeps_its_floor (bassEnergy : num) (now : Q) (s : BeatState) :
  is_number (threshold s) -> 0 <= minThreshold s ->
  minThreshold (fst (detectBpm bassEnergy now s)) = minThreshold s /\
  (exists t, threshold (fst (detectBpm bassEnergy now s)) = Num t /\
             minThreshold s <= t) /\
  lastBeatTime s <= lastBeatTime (fst (detectBpm bassEnergy now s)).
Proof.
  intros Hn H0.
  destruct (decay_threshold_floor s Hn) as (t1 & T1 & F1).
  destruct (decay_keeps_beats s) as (HL & _ & HM).
  unfold detectBpm. cbn [fst].
  unfold crossing, debounced. rewrite T1, HM, HL.
  destruct bassEnergy as [| b]; cbn [gtb andb].
  - rewrite HM, T1, HL. split; [reflexivity |]. split; [| lra].
    exists t1. split; [reflexivity | exact F1].
  - destruct (Qltb t1 b) eqn:C1; cbn [andb];
      [| rewrite HM, T1, HL; split; [reflexivity |]; split; [| lra];
         exists t1; split; [reflexivity | exact F1]].
    destruct (Qltb (minThreshold s) b) eqn:C2;
      [| rewrite HM, T1, HL; split; [reflexivity |]; split; [| lra];
         exists t1; split; [reflexivity | exact F1]].
    apply Qltb_lt in C2.
    assert (Hth : exists t, mul (Num b) (Num 1.1) = Num t /\ minThreshold s <= t)
      by (eexists; split; [reflexivity | lra]).
    destruct (Qltb 250 (now - lastBeatTime s)) eqn:D.
    + apply Qltb_lt in D.
      destruct (Qltb 300 _ && Qltb _ 1000);
        [cbn [set_intervals intervals set_lastBeatTime]; destruct (8 <? _)%nat |];
        cbn [set_threshold set_intervals set_lastBeatTime minThreshold threshold lastBeatTime];
        rewrite ?HM; (split; [reflexivity |]; split; [exact Hth | lra]).
    + cbn [set_threshold minThreshold threshold lastBeatTime].
      rewrite HM, HL. split; [reflexivity |]. split; [exact Hth | lra].
Qed.

Lemma estimator_keeps_its_floor_witness :
  lastBeatTime initial_beat <= lastBeatTime (fst (detectBpm (Num 200) 500 initial_beat)).
Proof.
  apply (estimator_keeps_its_floor (Num 200) 500 initial_beat).
  - exact I.
  - cbn. lra.
Defined.

(** Energy that is not a number, or not above the floor of 80, is never a
    beat: the call records no interval, keeps [lastBeatTime], and only
    decays the threshold. *)
Theorem quiet_energy_is_no_beat (bassEnergy : num) (now : Q) (s : BeatState) :
  match bassEnergy with
  | NaN => True
  | Num b => b <= minThreshold s
  end ->
  intervals (fst (detectBpm bassEnergy now s)) = intervals s /\
  lastBeatTime (fst (detectBpm bassEnergy now s)) = lastBeatTime s /\
  threshold (fst (detectBpm bassEnergy now s)) = threshold (decay_threshold s).
Proof.
  intros H.
  destruct (decay_keeps_beats s) as (HL & HI & HM).
  assert (C : crossing bassEnergy (decay_threshold s) = false).
  { unfold crossing. rewrite HM. destruct bassEnergy as [| b]; cbn [gtb].
    - reflexivity.
    - apply Qltb_ge in H. rewrite H. apply andb_false_r. }
  unfold detectBpm. cbn [fst]. rewrite C. auto.
Qed.

Lemma quiet_energy_is_no_beat_witness :
  intervals (fst (detectBpm (Num 80) 500 initial_beat)) = intervals initial_beat.
Proof.
  apply (quiet_energy_is_no_beat (Num 80) 500 initial_beat).
  cbn. lra.
Defined.





(* ------------------------------------------------------------------ *)
(** * Properties of the animation loop *)

Lemma Qnat_nonneg (n : nat) : 0 <= inject_Z (Z.of_nat n).
Proof. change 0 with (inject_Z 0). rewrite <- Zle_Qle. lia. Qed.

Section LoopProperties.

Variable lerp : num -> num -> num -> num.

Lemma gain_state_mid (an : analyser) (r : Refs) :
  gain_state (fst (getMidEnergy an r)) = gain_state r.
Proof.
  unfold getMidEnergy. destruct an as [data |]; [| reflexivity].
  destruct (for_range 5 30 _ _) as [sum count]. reflexivity.
Qed.

Lemma gain_state_high (an : analyser) (r : Refs) :
  gain_state (fst (getHighEnergy an r)) = gain_state r.
Proof.
  unfold getHighEnergy. destruct an as [data |]; [| reflexivity].
  destruct (for_range 50 _ _ _) as [sum count]. reflexivity.
Qed.

(** The fields of the state after one frame, branch by branch. *)
Lemma loop_fields (f : Frame) (a : App) :
  dropImpulse (loop lerp f a) = decay_drop (dropImpulse a) /\
  (analysing f = false ->
     analyzer_refs (loop lerp f a) = analyzer_refs a /\
     analyzer_beat (loop lerp f a) = analyzer_beat a /\
     bpm (loop lerp f a) = bpm a /\
     lastBpmUpdate (loop lerp f a) = lastBpmUpdate a) /\
  (analysing f = true ->
     let r1 := if feature_bass (features_now f)
               then getBassEnergy (analyser_now f) (analyzer_refs a)
               else (analyzer_refs a, Num 0) in
     let r2 := if feature_high (features_now f)
               then getHighEnergy (analyser_now f) (fst r1)
               else (fst r1, Num 0) in
     analyzer_refs (loop lerp f a) = fst (getMidEnergy (analyser_now f) (fst r2)) /\
     energy_bass (energyState (loop lerp f a)) = snd r1 /\
     (is_synth_mode (mode_now f) = true ->
        analyzer_beat (loop lerp f a) = analyzer_beat a /\
        bpm (loop lerp f a) = bpm a /\
        lastBpmUpdate (loop lerp f a) = lastBpmUpdate a) /\
     (is_synth_mode (mode_now f) = false ->
        analyzer_beat (loop lerp f a) =
          fst (detectBpm (snd r1) (now1 f) (analyzer_beat a)) /\
        bpm (loop lerp f a) =
          fst (gate_bpm (snd (detectBpm (snd r1) (now1 f) (analyzer_beat a)))
                        (now2 f) (bpm a) (lastBpmUpdate a)) /\
        lastBpmUpdate (loop lerp f a) =
          snd (gate_bpm (snd (detectBpm (snd r1) (now1 f) (analyzer_beat a)))
                        (now2 f) (bpm a) (lastBpmUpdate a)))).
Proof.
  unfold loop, analysing. cbv zeta.
  destruct (isPlaying_now f && isReady_now f).
  - destruct (if feature_bass (features_now f) then _ else _) as [r1 bass].
    cbn [fst snd].
    destruct (if feature_high (features_now f) then _ else _) as [r2 high].
    cbn [fst snd].
    destruct (getMidEnergy (analyser_now f) r2) as [r3 mid].
    destruct (is_synth_mode (mode_now f)); cbn [negb].
    + split; [reflexivity |]. split; [discriminate |]. intros _.
      cbn [fst snd]. split; [reflexivity |]. split; [reflexivity |].
      split; [intros _; repeat split | discriminate].
    + destruct (detectBpm bass (now1 f) (analyzer_beat a)) as [beat d].
      cbn [fst snd].
      destruct (gate_bpm d (now2 f) (bpm a) (lastBpmUpdate a)) as [display last].
      split; [reflexivity |]. split; [discriminate |]. intros _.
      cbn [fst snd]. split; [reflexivity |]. split; [reflexivity |].
      split; [discriminate | intros _; repeat split].
  - split; [reflexivity |]. split; [| discriminate]. intros _. repeat split.
Qed.

(** ** The drop impulse *)

Lemma decay_drop_range (d : Q) :
  0 <= d -> 0 <= decay_drop d /\ decay_drop d <= d /\
            decay_drop d <= Qmax 0 (d - 0.02).
Proof.
  intros H. unfold decay_drop.
  destruct (Qmax_cases 0 (d - 0.02)) as [[-> M] | [-> M]];
    destruct (Qltb 0 d) eqn:E; [apply Qltb_lt in E | apply Qltb_ge in E
                               |apply Qltb_lt in E | apply Qltb_ge in E];
    try destruct (Qltb (d - 0.02) 0) eqn:E2;
    rewrite ?Qltb_lt, ?Qltb_ge in *; repeat split; lra.
Qed.

(** The drop impulse stays in [0, 1] under every interleaving of drops and
    frames. *)
Theorem drop_impulse_in_range (evs : list AppEvent) (a : App) :
  0 <= dropImpulse a -> dropImpulse a <= 1 ->
  0 <= dropImpulse (run_app lerp evs a) /\ dropImpulse (run_app lerp evs a) <= 1.
Proof.
  revert a. induction evs as [| ev evs IH]; intros a H0 H1; [split; assumption |].
  cbn [run_app fold_left]. apply IH; destruct ev as [f |]; cbn [app_event].
  - rewrite (proj1 (loop_fields f a)). apply decay_drop_range, H0.
  - cbn. lra.
  - rewrite (proj1 (loop_fields f a)).
    destruct (decay_drop_range _ H0) as (_ & ? & _). lra.
  - cbn. lra.
Qed.

Lemma frames_fade (fs : list Frame) :
  forall a, 0 <= dropImpulse a ->
  0 <= dropImpulse (run_app lerp (map Draw fs) a) /\
  dropImpulse (run_app lerp (map Draw fs) a) <= dropImpulse a /\
  dropImpulse (run_app lerp (map Draw fs) a)
    <= Qmax 0 (dropImpulse a - 0.02 * inject_Z (Z.of_nat (length fs))).
Proof.
  induction fs as [| f fs IH]; intros a H0.
  - cbn [map run_app fold_left length]. change (inject_Z (Z.of_nat 0)) with 0.
    destruct (Qmax_cases 0 (dropImpulse a - 0.02 * 0)) as [[-> M] | [-> M]];
      repeat split; lra.
  - cbn [map run_app fold_left app_event].
    pose proof (proj1 (loop_fields f a)) as D.
    destruct (decay_drop_range _ H0) as (D0 & D1 & D2). rewrite <- D in D0, D1, D2.
    destruct (IH (loop lerp f a) D0) as (I0 & I1 & I2).
    unfold run_app in *. split; [exact I0 |]. split; [lra |].
    change (length (f :: fs)) with (S (length fs)). rewrite Qnat_succ.
    destruct (Qmax_cases 0 (dropImpulse a - 0.02)) as [[E M] | [E M]]; rewrite E in D2;
    destruct (Qmax_cases 0 (dropImpulse (loop lerp f a)
                            - 0.02 * inject_Z (Z.of_nat (length fs))))
      as [[E' M'] | [E' M']]; rewrite E' in I2;
    destruct (Qmax_cases 0 (dropImpulse a - 0.02 * (inject_Z (Z.of_nat (length fs)) + 1)))
      as [[-> M''] | [-> M'']];
    pose proof (Qnat_nonneg (length fs)); lra.
Qed.

(** A drop fades: over frames alone the impulse never rises, and 51 frames
    after a drop it is back at 0. *)
Theorem drop_impulse_fades (fs : list Frame) (a : App) :
  dropImpulse (run_app lerp (map Draw fs) (triggerDrop a)) <= 1 /\
  0 <= dropImpulse (run_app lerp (map Draw fs) (triggerDrop a)) /\
  ((51 <= length fs)%nat ->
   dropImpulse (run_app lerp (map Draw fs) (triggerDrop a)) == 0).
Proof.
  assert (H0 : 0 <= dropImpulse (triggerDrop a)) by (cbn; lra).
  destruct (frames_fade fs (triggerDrop a) H0) as (I0 & I1 & I2).
  split; [cbn in I1; lra |]. split; [exact I0 |].
  intros Hn.
  assert (N : 51 <= inject_Z (Z.of_nat (length fs)))
    by (change 51 with (inject_Z 51); rewrite <- Zle_Qle; lia).
  change (dropImpulse (triggerDrop a)) with 1.0 in I2.
  destruct (Qmax_cases 0 (1.0 - 0.02 * inject_Z (Z.of_nat (length fs))))
    as [[E M] | [E M]]; rewrite E in I2; lra.
Qed.

(** ** The displayed tempo *)

Lemma gate_bpm_cases (d : option Z) (now : Q) (display : Z) (last : Q) :
  gate_bpm d now display last = (display, last) \/
  (exists detected,
     d = Some detected /\ detected <> 0%Z /\ 1000 < now - last /\
     gate_bpm d now display last =
       ((if (5 <? Z.abs (display - detected))%Z then detected else display), now)).
Proof.
  unfold gate_bpm, detected_bpm.
  destruct d as [[| p | p] |]; try (left; reflexivity);
    (destruct (Qltb 1000 (now - last)) eqn:E; [| left; reflexivity]);
    apply Qltb_lt in E; right; eexists; repeat split; try exact E; discriminate.
Qed.

Lemma detected_in_range (bassEnergy : num) (now : Q) (s : BeatState) (detected : Z) :
  beat_ok s -> snd (detectBpm bassEnergy now s) = Some detected ->
  (60 <= detected <= 200)%Z.
Proof.
  intros Hs Hd.
  pose proof (detectBpm_ok bassEnergy now s Hs) as Hs'.
  set (s' := fst (detectBpm bassEnergy now s)) in *.
  assert (E : snd (detectBpm bassEnergy now s) =
              if (4 <=? length (intervals s'))%nat
              then Some (round (60000 / average (intervals s')))
              else None) by reflexivity.
  rewrite E in Hd.
  destruct (4 <=? length (intervals s'))%nat eqn:C; [| discriminate].
  apply Nat.leb_le in C. injection Hd as <-.
  apply round_bpm, average_plausible; [apply Hs' | lia].
Qed.

(** The displayed tempo moves only through the gate: in one frame it either
    stays, or jumps by more than 5 BPM to the estimate that [detectBpm]
    returns for the bass energy of that frame (the result of
    [getBassEnergy], or 0 with the bass feature off), and then only outside
    synth mode, while analysing, and more than 1000 ms after the gate last
    let an estimate through. *)
Theorem displayed_bpm_is_gated (f : Frame) (a : App) :
  bpm (loop lerp f a) = bpm a \/
  ((5 < Z.abs (bpm (loop lerp f a) - bpm a))%Z /\
   1000 < now2 f - lastBpmUpdate a /\
   lastBpmUpdate (loop lerp f a) = now2 f /\
   analysing f = true /\ is_synth_mode (mode_now f) = false /\
   energy_bass (energyState (loop lerp f a)) =
     (if feature_bass (features_now f)
      then snd (getBassEnergy (analyser_now f) (analyzer_refs a))
      else Num 0) /\
   snd (detectBpm (energy_bass (energyState (loop lerp f a))) (now1 f)
          (analyzer_beat a)) = Some (bpm (loop lerp f a))).
Proof.
  destruct (loop_fields f a) as (_ & Hidle & Hrun).
  destruct (analysing f) eqn:An; [| left; apply Hidle; reflexivity].
  specialize (Hrun eq_refl). cbv zeta in Hrun.
  destruct Hrun as (_ & Eb & Hs & Hn).
  destruct (is_synth_mode (mode_now f)) eqn:M; [left; apply Hs; reflexivity |].
  destruct (Hn eq_refl) as (_ & G1 & G2).
  rewrite <- Eb in G1, G2.
  set (bass := energy_bass (energyState (loop lerp f a))) in *.
  destruct (gate_bpm_cases (snd (detectBpm bass (now1 f) (analyzer_beat a)))
              (now2 f) (bpm a) (lastBpmUpdate a)) as [E | (d & Hd & _ & Ht & E)];
    rewrite E in G1, G2; cbn [fst snd] in G1, G2.
  - left. exact G1.
  - destruct (5 <? Z.abs (bpm a - d))%Z eqn:C; [| left; exact G1].
    right. apply Z.ltb_lt in C. rewrite G1.
    split; [lia |]. split; [exact Ht |]. split; [exact G2 |].
    split; [reflexivity |]. split; [reflexivity |].
    split; [| exact Hd].
    rewrite Eb. destruct (feature_bass (features_now f)); reflexivity.
Qed.

(** From its initial 120 the displayed tempo stays between 60 and 200 BPM
    under every sequence of frames and drops. *)
Theorem displayed_bpm_in_range (evs : list AppEvent) :
  (60 <= bpm (run_app lerp evs initial_app) <= 200)%Z.
Proof.
  assert (G : forall evs a,
            beat_ok (analyzer_beat a) -> (60 <= bpm a <= 200)%Z ->
            (60 <= bpm (run_app lerp evs a) <= 200)%Z).
  { clear evs. induction evs as [| ev evs IH]; intros a Hb Hr; [exact Hr |].
    cbn [run_app fold_left]. destruct ev as [f |]; cbn [app_event].
    - destruct (loop_fields f a) as (_ & Hidle & Hrun).
      destruct (analysing f) eqn:An.
      + specialize (Hrun eq_refl). cbv zeta in Hrun.
        destruct Hrun as (_ & _ & Hs & Hn).
        destruct (is_synth_mode (mode_now f)) eqn:M.
        * destruct (Hs eq_refl) as (E1 & E2 & _).
          apply IH; [rewrite E1; exact Hb | rewrite E2; exact Hr].
        * destruct (Hn eq_refl) as (E1 & G1 & _).
          apply IH; [rewrite E1; apply detectBpm_ok, Hb |].
          match type of G1 with
          | _ = fst (gate_bpm (snd (detectBpm ?b _ _)) _ _ _) => set (bass := b) in *
          end.
          destruct (gate_bpm_cases (snd (detectBpm bass (now1 f) (analyzer_beat a)))
                      (now2 f) (bpm a) (lastBpmUpdate a))
            as [E | (d & Hd & _ & _ & E)];
            rewrite E in G1; cbn [fst] in G1; rewrite G1; [exact Hr |].
          pose proof (detected_in_range bass (now1 f) (analyzer_beat a) d Hb Hd).
          destruct (5 <? Z.abs (bpm a - d))%Z; assumption.
      + destruct (Hidle eq_refl) as (_ & E1 & E2 & _).
        apply IH; [rewrite E1; exact Hb | rewrite E2; exact Hr].
    - apply IH; assumption. }
  apply G; [apply initial_beat_ok | cbn; lia].
Qed.

(** ** The gain across a frame *)

(** One frame adapts the gain at most once: by the one update inside
    [getBassEnergy] when the loop is analysing, the bass feature is on and
    the analyser exists, and not at all otherwise. *)
Theorem gain_adapts_once_per_frame (f : Frame) (a : App) :
  gain_state (analyzer_refs (loop lerp f a)) =
  if analysing f && feature_bass (features_now f) then
    match analyser_now f with
    | Some data => gain_state (updateAutoGain data (analyzer_refs a))
    | None => gain_state (analyzer_refs a)
    end
  else gain_state (analyzer_refs a).
Proof.
  destruct (loop_fields f a) as (_ & Hidle & Hrun).
  destruct (analysing f) eqn:An; cbn [andb].
  - destruct (Hrun eq_refl) as (-> & _). cbv zeta.
    rewrite gain_state_mid.
    destruct (feature_high (features_now f)); cbn [fst];
      rewrite ?gain_state_high;
      (destruct (feature_bass (features_now f)); cbn [fst]; [| reflexivity]);
      destruct (analyser_now f); reflexivity.
  - destruct (Hidle eq_refl) as (-> & _). reflexivity.
Qed.

(** With the bass feature switched off the gain is frozen: no sequence of
    frames and drops changes the envelope or the gain, so mid and high
    energies are computed with the gain last left by a bass poll. *)
Theorem muted_bass_freezes_the_gain (evs : list AppEvent) (a : App) :
  Forall (fun f => feature_bass (features_now f) = false) (frames_of evs) ->
  gain_state (analyzer_refs (run_app lerp evs a)) = gain_state (analyzer_refs a).
Proof.
  revert a. induction evs as [| ev evs IH]; intros a H; [reflexivity |].
  cbn [run_app fold_left]. destruct ev as [f |]; cbn [app_event frames_of flat_map] in *.
  - cbn [app] in H. inversion H as [| ? ? Hf Hfs]; subst.
    unfold run_app in IH. rewrite (IH (loop lerp f a) Hfs).
    destruct (loop_fields f a) as (_ & Hidle & Hrun).
    destruct (analysing f) eqn:An.
    + destruct (Hrun eq_refl) as (-> & _). cbv zeta.
      rewrite gain_state_mid, Hf.
      destruct (feature_high (features_now f)); cbn [fst];
        rewrite ?gain_state_high; reflexivity.
    + destruct (Hidle eq_refl) as (-> & _). reflexivity.
  - unfold run_app in IH. rewrite (IH (triggerDrop a) H). reflexivity.
Qed.

End LoopProperties.

(** The interpolation used in the examples of the loop. *)
Lemma drop_impulse_in_range_witness :
  dropImpulse (run_app linear [Drop; Drop] initial_app) <= 1.
Proof.
  apply (drop_impulse_in_range linear [Drop; Drop] initial_app); cbn; lra.
Defined.

Lemma drop_impulse_fades_witness :
  dropImpulse (run_app linear (map Draw (repeat (file_frame (mkFeatures false false)) 51))
                 (triggerDrop initial_app)) == 0.
Proof.
  apply (drop_impulse_fades linear (repeat (file_frame (mkFeatures false false)) 51)
           initial_app).
  rewrite repeat_length. apply Nat.leb_le. reflexivity.
Defined.

Lemma muted_bass_freezes_the_gain_witness :
  gain_state (analyzer_refs
                (run_app linear [Draw (file_frame (mkFeatures false true)); Drop]
                   initial_app)) =
  gain_state (analyzer_refs initial_app).
Proof.
  apply (muted_bass_freezes_the_gain linear
           [Draw (file_frame (mkFeatures false true)); Drop] initial_app).
  repeat constructor.
Defined.

(* ------------------------------------------------------------------ *)
(** * Properties of the audio graph of the hook *)

Lemma node_eqb_refl (n : Node) : node_eqb n n = true.
Proof. destruct n; apply Nat.eqb_refl. Qed.

Lemma node_eqb_eq (a b : Node) : node_eqb a b = true -> a = b.
Proof.
  destruct a, b; cbn; intros H; try discriminate;
    apply Nat.eqb_eq in H; subst; reflexivity.
Qed.

Lemma In_connect (n : Node) (l : list Node) : In n (connect n l).
Proof.
  unfold connect. destruct (existsb (node_eqb n) l) eqn:E; [| left; reflexivity].
  apply existsb_exists in E. destruct E as (m & Hm & Hnm).
  apply node_eqb_eq in Hnm. subst. exact Hm.
Qed.

Lemma cache_get_None (element : nat) (c : list (nat * Node)) :
  cache_get element c = None -> ~ In element (map fst c).
Proof.
  unfold cache_get. intros H Hin.
  destruct (find _ c) as [kv |] eqn:F; [discriminate |].
  apply in_map_iff in Hin. destruct Hin as ([k v] & Hk & Hkv). cbn in Hk. subst k.
  pose proof (find_none _ _ F _ Hkv) as C. cbn in C.
  rewrite Nat.eqb_refl in C. discriminate.
Qed.

Lemma cache_get_Some (element : nat) (c : list (nat * Node)) (n : Node) :
  cache_get element c = Some n -> In (element, n) c.
Proof.
  unfold cache_get. destruct (find _ c) as [[k v] |] eqn:F; [| discriminate].
  intros [= <-]. apply find_some in F. destruct F as [Hin Hk].
  cbn in Hk. apply Nat.eqb_eq in Hk. subst. exact Hin.
Qed.

Lemma wired_unmounted : wired unmounted.
Proof.
  unfold wired, unmounted; cbn.
  repeat split; try discriminate; try lia; try contradiction.
  constructor.
Qed.

Lemma context_disconnect (h : Hook) :
  audioContext (disconnectCurrentSource h) = audioContext h.
Proof. unfold disconnectCurrentSource. destruct (sourceRef h); reflexivity. Qed.

Lemma wired_disconnect (h : Hook) : wired h -> wired (disconnectCurrentSource h).
Proof.
  intros W. unfold disconnectCurrentSource.
  destruct (sourceRef h) as [n |] eqn:S; [| exact W].
  destruct W as (W1 & W2 & W3 & W4 & W5 & W6 & W7 & W8).
  unfold wired; cbn [audioContext outputGain sourceRef sourceCache links created
                     isReady awaiting].
  split; [exact W1 |]. split; [exact W2 |].
  split; [intros C; destruct (W3 C) as (C' & _); congruence |].
  split; [exact W4 |]. split; [exact W5 |]. split; [exact W6 |].
  split; intros m; discriminate.
Qed.

Lemma wired_attach (n : Node) (g : Q) (h : Hook) :
  wired h -> audioContext h = true -> (is_stream n = true -> g = 0.0) ->
  wired (attach n g h).
Proof.
  intros (W1 & W2 & W3 & W4 & W5 & W6 & W7 & W8) Hc Hg.
  destruct (W2 Hc) as (g0 & G0).
  unfold wired, attach;
    cbn [audioContext outputGain sourceRef sourceCache links created isReady awaiting].
  rewrite G0.
  split; [exact W1 |]. split; [intros _; eexists; reflexivity |].
  split; [congruence |].
  split; [exact W4 |]. split; [exact W5 |]. split; [exact W6 |].
  split.
  - intros m [= <-]. apply In_connect.
  - intros m [= <-] Hs. rewrite (Hg Hs). reflexivity.
Qed.

Lemma wired_handle (ev : Event) (h : Hook) : wired h -> wired (handle ev h).
Proof.
  intros W. destruct ev as [| element | node | | system ans |]; cbn [handle].
  - unfold initAudio. destruct (audioContext h) eqn:C; [exact W |].
    destruct W as (W1 & W2 & W3 & W4 & W5 & W6 & W7 & W8).
    destruct (W3 C) as (S & L & A).
    unfold wired;
      cbn [audioContext outputGain sourceRef sourceCache links created isReady awaiting].
    rewrite S.
    split; [intros _; reflexivity |]. split; [intros _; eexists; reflexivity |].
    split; [discriminate |].
    split; [exact W4 |]. split; [exact W5 |]. split; [exact W6 |].
    split; intros m; discriminate.
  - unfold connectSource. destruct (audioContext h) eqn:C; cbn [negb]; [| exact W].
    pose proof (wired_disconnect h W) as W'.
    pose proof (context_disconnect h) as C'. rewrite C in C'.
    destruct (cache_get element (sourceCache (disconnectCurrentSource h)))
      as [src |] eqn:G.
    + apply wired_attach; [exact W' | exact C' |].
      apply cache_get_Some in G.
      destruct W' as (_ & _ & _ & _ & _ & W6 & _).
      apply W6 in G. cbn in G. subst src. discriminate.
    + apply cache_get_None in G.
      apply wired_attach; [| exact C' | discriminate].
      destruct W' as (W1 & W2 & W3 & W4 & W5 & W6 & W7 & W8).
      unfold wired;
        cbn [audioContext outputGain sourceRef sourceCache links created isReady
             awaiting map fst].
      split; [exact W1 |]. split; [exact W2 |]. split; [exact W3 |].
      split; [rewrite W4; reflexivity |].
      split; [constructor; [rewrite W4; exact G | exact W5] |].
      split; [intros kv [<- | Hkv]; [reflexivity | apply W6, Hkv] |].
      split; [exact W7 | exact W8].
  - unfold connectAudioNode. destruct (audioContext h) eqn:C; cbn [negb]; [| exact W].
    apply wired_attach; [apply wired_disconnect, W | | discriminate].
    rewrite context_disconnect. exact C.
  - unfold request_capture. destruct (audioContext h) eqn:C; cbn [negb]; [| exact W].
    pose proof (wired_disconnect h W) as (W1 & W2 & W3 & W4 & W5 & W6 & W7 & W8).
    pose proof (context_disconnect h) as C'. rewrite C in C'.
    unfold wired;
      cbn [audioContext outputGain sourceRef sourceCache links created isReady awaiting].
    split; [intros _; exact C' |]. split; [exact W2 |].
    split; [congruence |].
    split; [exact W4 |]. split; [exact W5 |]. split; [exact W6 |].
    split; [exact W7 | exact W8].
  - unfold capture_answered. destruct (awaiting h) as [| k] eqn:A; [exact W |].
    destruct W as (W1 & W2 & W3 & W4 & W5 & W6 & W7 & W8).
    assert (C : audioContext h = true) by (apply W1; lia).
    assert (W' : wired {| audioContext := audioContext h; outputGain := outputGain h;
                          sourceRef := sourceRef h; sourceCache := sourceCache h;
                          links := links h; created := created h;
                          isReady := isReady h; awaiting := k |}).
    { unfold wired;
        cbn [audioContext outputGain sourceRef sourceCache links created isReady
             awaiting].
      split; [intros _; exact C |]. split; [exact W2 |].
      split; [congruence |].
      split; [exact W4 |]. split; [exact W5 |]. split; [exact W6 |].
      split; [exact W7 | exact W8]. }
    destruct ans as [stream has_audio |]; [| exact W'].
    destruct (system && negb has_audio); cbn [fst]; [exact W' |].
    apply wired_attach; [exact W' | exact C | reflexivity].
  - apply wired_disconnect, W.
Qed.

Lemma wired_run (evs : list Event) (h : Hook) : wired h -> wired (run evs h).
Proof.
  revert h. induction evs as [| ev evs IH]; intros h W; [exact W |].
  apply IH, wired_handle, W.
Qed.

(** The reason for the source cache: over every sequence of events since
    mounting, [createMediaElementSource] is called at most once for each
    media element, however often the element is connected again. *)
Theorem element_source_created_once (evs : list Event) :
  NoDup (created (run evs unmounted)).
Proof.
  apply (wired_run evs unmounted wired_unmounted).
Qed.

Lemma In_disconnect (n m : Node) (l : list Node) :
  In m (disconnect n l) -> In m l /\ m <> n.
Proof.
  unfold disconnect. intros H. apply filter_In in H. destruct H as [H E].
  split; [exact H |]. intros ->. rewrite node_eqb_refl in E. discriminate.
Qed.

Lemma In_connect_inv (n m : Node) (l : list Node) :
  In m (connect n l) -> m = n \/ In m l.
Proof.
  unfold connect. destruct (existsb (node_eqb n) l).
  - intros H. right. exact H.
  - intros [<- | H]; [left; reflexivity | right; exact H].
Qed.

(** Once the current source is disconnected, no captured stream feeds the
    analyser. *)
Lemma streams_disconnected (h : Hook) :
  (forall n, In n (links h) -> is_stream n = true -> sourceRef h = Some n) ->
  forall m, In m (links (disconnectCurrentSource h)) -> is_stream m = false.
Proof.
  intros H m. unfold disconnectCurrentSource.
  destruct (sourceRef h) as [n |] eqn:S; cbn [links]; intros Hm.
  - apply In_disconnect in Hm. destruct Hm as [Hm Hne].
    destruct (is_stream m) eqn:E; [| reflexivity].
    specialize (H m Hm E). congruence.
  - destruct (is_stream m) eqn:E; [| reflexivity].
    specialize (H m Hm E). discriminate.
Qed.

Lemma awaiting_disconnect (h : Hook) :
  awaiting (disconnectCurrentSource h) = awaiting h.
Proof. unfold disconnectCurrentSource. destruct (sourceRef h); reflexivity. Qed.

Lemma sourceCache_disconnect (h : Hook) :
  sourceCache (disconnectCurrentSource h) = sourceCache h.
Proof. unfold disconnectCurrentSource. destruct (sourceRef h); reflexivity. Qed.

Lemma streams_current_attach (n : Node) (g : Q) (h : Hook) :
  (awaiting h <= 1)%nat ->
  (forall m, In m (links h) -> is_stream m = false) ->
  (awaiting h = 1%nat -> is_stream n = false) ->
  streams_current (attach n g h).
Proof.
  intros A H Hn. unfold streams_current, attach. cbn [awaiting links sourceRef].
  split; [exact A |]. split.
  - intros m Hm E. apply In_connect_inv in Hm. destruct Hm as [-> | Hm]; [reflexivity |].
    rewrite (H m Hm) in E. discriminate.
  - intros A1 m Hm. apply In_connect_inv in Hm.
    destruct Hm as [-> | Hm]; [apply Hn, A1 | apply H, Hm].
Qed.

Lemma streams_current_handle (ev : Event) (h : Hook) :
  wired h -> streams_current h ->
  (ev = RequestCapture -> awaiting h = 0%nat) ->
  streams_current (handle ev h).
Proof.
  intros W S0 Hev. pose proof S0 as (A & S1 & S2).
  pose proof (streams_disconnected h S1) as D.
  destruct ev as [| element | node | | system ans |]; cbn [handle].
  - unfold initAudio. destruct (audioContext h); [exact S0 |].
    unfold streams_current. cbn [awaiting links sourceRef]. exact S0.
  - unfold connectSource. destruct (audioContext h); cbn [negb];
      [| exact S0].
    cbv zeta. rewrite sourceCache_disconnect.
    destruct (cache_get element (sourceCache h)) as [source |] eqn:G.
    + apply streams_current_attach;
        [rewrite awaiting_disconnect; exact A | exact D |].
      intros _. destruct W as (_ & _ & _ & _ & _ & W6 & _).
      unfold cache_get in G.
      destruct (find _ (sourceCache h)) as [kv |] eqn:F; [| discriminate].
      injection G as <-. apply find_some in F. destruct F as [F _].
      rewrite (W6 kv F). reflexivity.
    + apply streams_current_attach; cbn [awaiting links];
        [rewrite awaiting_disconnect; exact A | exact D | reflexivity].
  - unfold connectAudioNode. destruct (audioContext h); cbn [negb];
      [| exact S0].
    apply streams_current_attach;
      [rewrite awaiting_disconnect; exact A | exact D | reflexivity].
  - unfold request_capture. destruct (audioContext h); cbn [negb];
      [| exact S0].
    cbv zeta. unfold streams_current. cbn [awaiting links sourceRef].
    rewrite awaiting_disconnect, (Hev eq_refl).
    split; [lia |]. split.
    + intros n Hn E. rewrite (D n Hn) in E. discriminate.
    + intros _. exact D.
  - unfold capture_answered. destruct (awaiting h) as [| k] eqn:Aw;
      [exact S0 |].
    assert (k = 0%nat) by lia. subst k.
    assert (N : forall m, In m (links h) -> is_stream m = false)
      by (apply S2; reflexivity).
    assert (Q0 : streams_current
                  {| audioContext := audioContext h; outputGain := outputGain h;
                     sourceRef := sourceRef h; sourceCache := sourceCache h;
                     links := links h; created := created h;
                     isReady := isReady h; awaiting := 0 |}).
    { unfold streams_current. cbn [awaiting links sourceRef].
      split; [lia |]. split; [exact S1 | discriminate]. }
    destruct ans as [stream has_audio |]; [| exact Q0].
    destruct (system && negb has_audio); cbn [fst]; [exact Q0 |].
    apply streams_current_attach; cbn [awaiting links]; [lia | exact N | discriminate].
  - unfold streams_current. rewrite awaiting_disconnect.
    split; [exact A |]. split.
    + intros n Hn E. rewrite (D n Hn) in E. discriminate.
    + intros _. exact D.
Qed.

Lemma streams_current_run (evs : list Event) (h : Hook) :
  wired h -> streams_current h -> one_at_a_time evs h = true ->
  streams_current (run evs h).
Proof.
  revert h. induction evs as [| ev evs IH]; intros h W S O; [exact S |].
  cbn [one_at_a_time] in O. apply andb_true_iff in O. destruct O as [O1 O2].
  cbn [run fold_left]. apply IH; [apply wired_handle, W | | exact O2].
  apply streams_current_handle; [exact W | exact S |].
  intros ->. apply Nat.eqb_eq, O1.
Qed.

Lemma streams_current_unmounted : streams_current unmounted.
Proof.
  unfold streams_current, unmounted. cbn. split; [lia |].
  split; [intros n [] | discriminate].
Qed.

(** The current source, if there is one, feeds the analyser, and while it is
    a microphone or screen-share stream the output gain is 0, over every
    sequence of events, the answers of the browser arriving in any order.
    When captures are requested one at a time, every captured stream that
    feeds the analyser is the current source, so captured input is not
    played back. *)
Theorem captured_input_is_muted (evs : list Event) (n : Node) :
  (sourceRef (run evs unmounted) = Some n ->
   In n (links (run evs unmounted)) /\
   (is_stream n = true -> outputGain (run evs unmounted) = Some 0.0)) /\
  (one_at_a_time evs unmounted = true ->
   In n (links (run evs unmounted)) -> is_stream n = true ->
   sourceRef (run evs unmounted) = Some n /\
   outputGain (run evs unmounted) = Some 0.0).
Proof.
  destruct (wired_run evs unmounted wired_unmounted)
    as (_ & _ & _ & _ & _ & _ & W7 & W8).
  split.
  - intros H. split; [apply W7, H | apply W8, H].
  - intros O Hn E.
    destruct (streams_current_run evs unmounted wired_unmounted
                streams_current_unmounted O) as (_ & S1 & _).
    pose proof (S1 n Hn E) as H. split; [exact H | exact (W8 n H E)].
Qed.

Lemma captured_input_is_muted_witness :
  sourceRef (run [InitAudio; RequestCapture; ConnectSource 3;
                  CaptureAnswered false (Granted 7 true)] unmounted)
    = Some (StreamSource 7) /\
  outputGain (run [InitAudio; RequestCapture; ConnectSource 3;
                   CaptureAnswered false (Granted 7 true)] unmounted) = Some 0.0.
Proof.
  apply (captured_input_is_muted
           [InitAudio; RequestCapture; ConnectSource 3;
            CaptureAnswered false (Granted 7 true)]
           (StreamSource 7)).
  - reflexivity.
  - vm_compute. left. reflexivity.
  - reflexivity.
Defined.

(** The condition is needed: with two requests outstanding at once, the
    first stream stays connected when the second arrives, and is played at
    full gain once a file is connected. *)
Example overlapping_captures_are_played_back :
  let h := run [InitAudio; RequestCapture; RequestCapture;
                CaptureAnswered false (Granted 1 true);
                CaptureAnswered false (Granted 2 true);
                ConnectSource 0] unmounted in
  In (StreamSource 1) (links h) /\ outputGain h = Some 1.0.
Proof. vm_compute. split; [right; left; reflexivity | reflexivity]. Qed.

(** Before [initAudio] nothing can be connected: every sequence of events
    without it leaves the hook as it was mounted. *)
Theorem nothing_connects_before_init (evs : list Event) :
  Forall (fun ev => ev <> InitAudio) evs -> run evs unmounted = unmounted.
Proof.
  induction 1 as [| ev evs Hev _ IH]; [reflexivity |].
  cbn [run fold_left].
  replace (handle ev unmounted) with unmounted; [exact IH |].
  destruct ev as [| element | node | | system ans |]; try reflexivity.
  contradiction.
Qed.

Lemma nothing_connects_before_init_witness :
  run [ConnectSource 1; RequestCapture] unmounted = unmounted.
Proof.
  apply (nothing_connects_before_init [ConnectSource 1; RequestCapture]).
  repeat constructor; discriminate.
Defined.

Lemma disconnect_single (n : Node) : disconnect n [n] = [].
Proof. unfold disconnect. cbn. rewrite node_eqb_refl. reflexivity. Qed.

Lemma single_source_handle (ev : Event) (h : Hook) :
  synchronous ev = true -> single_source h -> single_source (handle ev h).
Proof.
  intros Hs S.
  assert (D : single_source (disconnectCurrentSource h) /\
              sourceRef (disconnectCurrentSource h) = None).
  { unfold single_source, disconnectCurrentSource in *.
    destruct (sourceRef h) as [n |] eqn:E; cbn [links sourceRef].
    - rewrite S, disconnect_single. split; reflexivity.
    - rewrite ?E. split; [exact S | first [exact E | reflexivity]]. }
  destruct D as [D DN].
  assert (A : forall n g h0, single_source h0 -> sourceRef h0 = None ->
                             single_source (attach n g h0)).
  { intros n g h0 S0 N0. unfold single_source in *. cbn [attach links sourceRef].
    rewrite S0, N0. reflexivity. }
  destruct ev as [| element | node | | system ans |]; try discriminate; cbn [handle].
  - unfold initAudio. destruct (audioContext h); exact S.
  - unfold connectSource. destruct (audioContext h); cbn [negb]; [| exact S].
    destruct (cache_get _ _); apply A; assumption.
  - unfold connectAudioNode. destruct (audioContext h); cbn [negb]; [| exact S].
    apply A; assumption.
Qed.

(** Switching between media elements and passed-in nodes leaves exactly one
    source on the analyser: after any sequence of [initAudio],
    [connectSource] and [connectAudioNode] the analyser is fed by the current
    source and by nothing else. *)
Theorem switching_leaves_one_source (evs : list Event) :
  Forall (fun ev => synchronous ev = true) evs ->
  single_source (run evs unmounted).
Proof.
  assert (G : forall evs h, Forall (fun ev => synchronous ev = true) evs ->
                            single_source h -> single_source (run evs h)).
  { clear evs. induction evs as [| ev evs IH]; intros h H S; [exact S |].
    inversion H as [| ? ? Hev Hevs]; subst.
    cbn [run fold_left]. apply IH; [exact Hevs |].
    apply single_source_handle; assumption. }
  intros H. apply G; [exact H | reflexivity].
Qed.

Lemma switching_leaves_one_source_witness :
  single_source (run [InitAudio; ConnectSource 1; ConnectAudioNode 2; ConnectSource 1]
                   unmounted).
Proof.
  apply (switching_leaves_one_source
           [InitAudio; ConnectSource 1; ConnectAudioNode 2; ConnectSource 1]).
  repeat constructor.
Defined.
